(** * babysql: the statement builder of [src/index.ts], embedded and verified

    The builder class [BabySQLBuilder] accumulates clause configuration
    through chained method calls and renders it with [build] into a pair
    [{ sql, params }].  Every method mutates [this]; [build] may throw and
    may write to the console.  The embedding threads the builder instance
    and the console through a small state-and-exception monad. *)

From Stdlib Require Import String Ascii List ZArith QArith Bool Lia.
From Stdlib Require Import Permutation.
Import ListNotations.

Local Open Scope list_scope.
Local Open Scope string_scope.

(** ** JavaScript numbers

    A finite IEEE double is a rational number.  The builder only applies
    [n | 0] (hence [ToInt32]), [Math.max] on integers, and one product of
    two integers to numbers; ECMAScript defines all of these on the
    mathematical value of the operand. *)

Inductive number : Type :=
| NaN
| Infinity (negative : bool)
| Finite (q : Q).

Definition of_int (z : Z) : number := Finite (inject_Z z).

(** [truncate] of ECMAScript: rounding toward zero. *)
Definition truncate (q : Q) : Z := Z.quot (Qnum q) (Zpos (Qden q)).

(** [ToInt32] (ECMA-262, 7.1.6): NaN and the infinities go to 0, any other
    number is truncated, reduced modulo 2^32 and read as a signed word. *)
Definition ToInt32 (n : number) : Z :=
  match n with
  | NaN => 0
  | Infinity _ => 0
  | Finite q =>
      let int := truncate q in
      let int32bit := int mod 2 ^ 32 in
      if 2 ^ 31 <=? int32bit then int32bit - 2 ^ 32 else int32bit
  end%Z.

(** [a | b] on numbers: both operands go through [ToInt32]. *)
Definition bitor (a b : number) : Z := Z.lor (ToInt32 a) (ToInt32 b).

(** Rounding of a non-negative integer to the nearest double (ties to
    even, 53 bits of mantissa): what [*] does to an exact product. *)
Definition round_to_double (z : Z) : Z :=
  let k := (Z.log2 z - 52)%Z in
  if (k <=? 0)%Z then z
  else
    let q := Z.shiftr z k in
    let r := Z.land z (Z.ones k) in
    let half := Z.shiftl 1 (k - 1) in
    let q' := if (half <? r)%Z || ((r =? half)%Z && Z.odd q) then (q + 1)%Z else q in
    Z.shiftl q' k.

(** ** Scalars, fragments, the builder record *)

Inductive QueryType : Type := Select | Count | Insert | Update | Delete.
Inductive OrderDirection : Type := ASC | DESC.
Inductive Connector : Type := AND | OR.
Inductive LikeMode : Type := both | left | right.

Inductive WhereOperator : Type :=
| OpEq | OpNe | OpLtGt | OpGt | OpGe | OpLt | OpLe
| OpLike | OpNotLike | OpIs | OpIsNot.

Inductive Primitive : Type :=
| PString (s : string)
| PNumber (n : number)
| PBoolean (b : bool)
| PDate (time : number)
| PNull.

Definition QueryType_eqb (a b : QueryType) : bool :=
  match a, b with
  | Select, Select | Count, Count | Insert, Insert
  | Update, Update | Delete, Delete => true
  | _, _ => false
  end.

Definition operator_text (op : WhereOperator) : string :=
  match op with
  | OpEq => "=" | OpNe => "!=" | OpLtGt => "<>"
  | OpGt => ">" | OpGe => ">=" | OpLt => "<" | OpLe => "<="
  | OpLike => "LIKE" | OpNotLike => "NOT LIKE"
  | OpIs => "IS" | OpIsNot => "IS NOT"
  end.

Definition connector_text (c : Connector) : string :=
  match c with AND => "AND" | OR => "OR" end.

Definition direction_text (d : OrderDirection) : string :=
  match d with ASC => "ASC" | DESC => "DESC" end.

(** [Array.prototype.join] on an array of strings. *)
Fixpoint join (sep : string) (l : list string) : string :=
  match l with
  | [] => ""
  | [x] => x
  | x :: rest => x ++ sep ++ join sep rest
  end.

(** ** Ordinary objects used as string-keyed records

    An object is the list of its own properties in creation order; a
    well-formed object has no key twice. *)

Definition JSObject : Type := list (string * Primitive).

Definition wf_object (o : JSObject) : Prop := NoDup (map fst o).

Definition digit_value (c : ascii) : option N :=
  let n := N_of_ascii c in
  if (48 <=? n)%N && (n <=? 57)%N then Some (n - 48)%N else None.

Fixpoint digits_value (acc : N) (s : string) : option N :=
  match s with
  | EmptyString => Some acc
  | String c s' =>
      match digit_value c with
      | Some d => digits_value (10 * acc + d)%N s'
      | None => None
      end
  end.

(** A property key is an array index when it is the canonical decimal
    numeral of an integer between 0 and 2^32 - 2. *)
Definition array_index (k : string) : option N :=
  match k with
  | EmptyString => None
  | String c rest =>
      if Ascii.eqb c "0" && negb (String.eqb rest "") then None
      else
        match digits_value 0 k with
        | Some n => if (n <? 2 ^ 32 - 1)%N then Some n else None
        | None => None
        end
  end.

Definition is_array_index (k : string) : bool :=
  match array_index k with Some _ => true | None => false end.

Fixpoint insert_index (x : N * string) (l : list (N * string)) : list (N * string) :=
  match l with
  | [] => [x]
  | y :: l' => if (fst x <=? fst y)%N then x :: l else y :: insert_index x l'
  end.

Fixpoint index_keys (ks : list string) : list (N * string) :=
  match ks with
  | [] => []
  | k :: ks' =>
      match array_index k with
      | Some n => insert_index (n, k) (index_keys ks')
      | None => index_keys ks'
      end
  end.

(** [OrdinaryOwnPropertyKeys]: the array-index keys in ascending numeric
    order, then the other string keys in creation order.  [Object.keys]
    returns this list (every property here is enumerable). *)
Definition own_keys (o : JSObject) : list string :=
  map snd (index_keys (map fst o))
  ++ filter (fun k => negb (is_array_index k)) (map fst o).

Fixpoint get (o : JSObject) (k : string) : option Primitive :=
  match o with
  | [] => None
  | (k', v) :: o' => if String.eqb k' k then Some v else get o' k
  end.

(** [o[k]] for a key that [Object.keys(o)] returned; the default stands for
    [undefined] and is never reached on such a key (lemma [get_own_key]). *)
Definition prop (o : JSObject) (k : string) : Primitive :=
  match get o k with Some v => v | None => PNull end.

(** [{ ...o }]: a fresh object that receives the own properties of [o] in
    [own_keys] order. *)
Definition spread (o : JSObject) : JSObject :=
  map (fun k => (k, prop o k)) (own_keys o).

Record WhereFragment : Type := mkWhere {
  w_sql : string;
  w_params : list Primitive;
  w_connector : Connector
}.

Record OrderEntry : Type := mkOrder {
  col : string;
  dir : OrderDirection
}.

Record BuiltQuery : Type := mkBuilt {
  sql : string;
  params : list Primitive
}.

Record BabySQLBuilder : Type := mkBuilder {
  type : QueryType;
  table : string;
  _columns : list string;
  _data : option JSObject;
  _wheres : list WhereFragment;
  _order : list OrderEntry;
  _limit : option number;
  _offset : option number;
  _countColumn : string;
  _countAlias : string;
  _allowUnsafe : bool;
  _debug : bool
}.

(** The constructor, with the field initialisers of the class. *)
Definition new_BabySQLBuilder (ty : QueryType) (tbl : string) : BabySQLBuilder :=
  {| type := ty; table := tbl;
     _columns := []; _data := None; _wheres := []; _order := [];
     _limit := None; _offset := None;
     _countColumn := "*"; _countAlias := "total";
     _allowUnsafe := false; _debug := false |}.

(** Assignments to one field of [this]. *)
Definition set_columns (v : list string) (b : BabySQLBuilder) : BabySQLBuilder :=
  mkBuilder (type b) (table b) v (_data b) (_wheres b) (_order b)
    (_limit b) (_offset b) (_countColumn b) (_countAlias b) (_allowUnsafe b) (_debug b).
Definition set_data (v : option JSObject) (b : BabySQLBuilder) : BabySQLBuilder :=
  mkBuilder (type b) (table b) (_columns b) v (_wheres b) (_order b)
    (_limit b) (_offset b) (_countColumn b) (_countAlias b) (_allowUnsafe b) (_debug b).
Definition set_wheres (v : list WhereFragment) (b : BabySQLBuilder) : BabySQLBuilder :=
  mkBuilder (type b) (table b) (_columns b) (_data b) v (_order b)
    (_limit b) (_offset b) (_countColumn b) (_countAlias b) (_allowUnsafe b) (_debug b).
Definition set_order (v : list OrderEntry) (b : BabySQLBuilder) : BabySQLBuilder :=
  mkBuilder (type b) (table b) (_columns b) (_data b) (_wheres b) v
    (_limit b) (_offset b) (_countColumn b) (_countAlias b) (_allowUnsafe b) (_debug b).
Definition set_limit (v : option number) (b : BabySQLBuilder) : BabySQLBuilder :=
  mkBuilder (type b) (table b) (_columns b) (_data b) (_wheres b) (_order b)
    v (_offset b) (_countColumn b) (_countAlias b) (_allowUnsafe b) (_debug b).
Definition set_offset (v : option number) (b : BabySQLBuilder) : BabySQLBuilder :=
  mkBuilder (type b) (table b) (_columns b) (_data b) (_wheres b) (_order b)
    (_limit b) v (_countColumn b) (_countAlias b) (_allowUnsafe b) (_debug b).
Definition set_countColumn (v : string) (b : BabySQLBuilder) : BabySQLBuilder :=
  mkBuilder (type b) (table b) (_columns b) (_data b) (_wheres b) (_order b)
    (_limit b) (_offset b) v (_countAlias b) (_allowUnsafe b) (_debug b).
Definition set_countAlias (v : string) (b : BabySQLBuilder) : BabySQLBuilder :=
  mkBuilder (type b) (table b) (_columns b) (_data b) (_wheres b) (_order b)
    (_limit b) (_offset b) (_countColumn b) v (_allowUnsafe b) (_debug b).
Definition set_allowUnsafe (v : bool) (b : BabySQLBuilder) : BabySQLBuilder :=
  mkBuilder (type b) (table b) (_columns b) (_data b) (_wheres b) (_order b)
    (_limit b) (_offset b) (_countColumn b) (_countAlias b) v (_debug b).
Definition set_debug (v : bool) (b : BabySQLBuilder) : BabySQLBuilder :=
  mkBuilder (type b) (table b) (_columns b) (_data b) (_wheres b) (_order b)
    (_limit b) (_offset b) (_countColumn b) (_countAlias b) (_allowUnsafe b) v.

(** ** Effects: the instance, the console, exceptions *)

(** The four [throw new Error(...)] sites of [build]. *)
Inductive Error : Type :=
| InsertNeedsData      (* 'insert() 需要先调用 data()' *)
| UpdateNeedsData      (* 'update() 需要先调用 data()' *)
| UpdateWithoutWhere   (* '危险操作：UPDATE 没有 WHERE。...' *)
| DeleteWithoutWhere.  (* '危险操作：DELETE 没有 WHERE。...' *)

(** The two error kinds of the specification. *)
Inductive ErrorKind : Type := MissingPayload | UnsafeStatement.

Definition kind_of (e : Error) : ErrorKind :=
  match e with
  | InsertNeedsData | UpdateNeedsData => MissingPayload
  | UpdateWithoutWhere | DeleteWithoutWhere => UnsafeStatement
  end.

(** One [console.log(label, value)] call. *)
Inductive ConsoleLine : Type :=
| LogString (label : string) (value : string)
| LogParams (label : string) (value : list Primitive).

Record World : Type := mkWorld {
  this : BabySQLBuilder;
  console : list ConsoleLine
}.

Inductive Completion (A : Type) : Type :=
| Returned (a : A)
| Thrown (e : Error).
Arguments Returned {A} a.
Arguments Thrown {A} e.

(** A method body: it runs in a world, completes normally or abruptly, and
    leaves a world behind (a throw does not roll anything back). *)
Definition M (A : Type) : Type := World -> Completion A * World.

Definition ret {A} (a : A) : M A := fun w => (Returned a, w).

Definition bind {A B} (m : M A) (k : A -> M B) : M B :=
  fun w =>
    match m w with
    | (Returned a, w') => k a w'
    | (Thrown e, w') => (Thrown e, w')
    end.

Definition throw {A} (e : Error) : M A := fun w => (Thrown e, w).

(** A block that only returns or throws, run inside a method. *)
Definition complete {A} (c : Completion A) : M A := fun w => (c, w).

Definition read_this : M BabySQLBuilder := fun w => (Returned (this w), w).

Definition assign (f : BabySQLBuilder -> BabySQLBuilder) : M unit :=
  fun w => (Returned tt, mkWorld (f (this w)) (console w)).

Definition console_log (l : ConsoleLine) : M unit :=
  fun w => (Returned tt, mkWorld (this w) (console w ++ [l])).

Declare Scope js_scope.
Delimit Scope js_scope with js.
Notation "x <- m ;; k" := (bind m (fun x => k))
  (at level 61, m at next level, right associativity) : js_scope.
Notation "' p <- m ;; k" := (bind m (fun x => let p := x in k))
  (at level 61, p pattern, m at next level, right associativity) : js_scope.
Notation "m ;; k" := (bind m (fun _ => k))
  (at level 61, right associativity) : js_scope.
Local Open Scope js_scope.

(** Running a method on an instance with an empty console. *)
Definition run {A} (m : M A) (b : BabySQLBuilder) : Completion A * World :=
  m (mkWorld b []).
Definition result {A} (m : M A) (b : BabySQLBuilder) : Completion A := fst (run m b).
Definition after {A} (m : M A) (b : BabySQLBuilder) : BabySQLBuilder := this (snd (run m b)).
Definition output {A} (m : M A) (b : BabySQLBuilder) : list ConsoleLine := console (snd (run m b)).

(** ** The configuration methods

    Each one returns [this]; a chain [b.f(..).g(..)] is the sequence
    [f .. ;; g ..] on the same instance. *)

(** [countColumn(col = '*', alias = 'total')] *)
Definition countColumn (c : option string) (alias : option string) : M unit :=
  let c := match c with Some c => c | None => "*" end in
  let alias := match alias with Some a => a | None => "total" end in
  assign (set_countColumn c) ;;
  assign (set_countAlias alias).

(** [data(obj)] *)
Definition data (obj : JSObject) : M unit :=
  assign (set_data (Some (spread obj))).

(** [columns(cols)]: an array is kept, a single name is wrapped. *)
Definition columns (cols : list string + string) : M unit :=
  assign (set_columns (match cols with inl l => l | inr c => [c] end)).

Definition push_where (w : WhereFragment) : M unit :=
  b <- read_this ;;
  assign (set_wheres (_wheres b ++ [w])).

(** [where(column, op, value, connector = 'AND')] *)
Definition where_ (column : string) (op : WhereOperator) (value : Primitive)
    (connector : Connector) : M unit :=
  push_where
    {| w_sql := column ++ " " ++ operator_text op ++ " ?";
       w_params := [value];
       w_connector := connector |}.

(** [whereLike(column, value, mode = 'both', connector = 'AND')] *)
Definition whereLike (column : string) (value : string) (mode : LikeMode)
    (connector : Connector) : M unit :=
  let val : string :=
    match mode with
    | both => "%" ++ value ++ "%"
    | left => "%" ++ value
    | right => value ++ "%"
    end in
  push_where
    {| w_sql := column ++ " LIKE ?";
       w_params := [PString val];
       w_connector := connector |}.

(** [whereIn(column, values, connector = 'AND')] *)
Definition whereIn (column : string) (values : list Primitive)
    (connector : Connector) : M unit :=
  if (length values =? 0)%nat then
    push_where {| w_sql := "1=0"; w_params := []; w_connector := connector |}
  else
    let placeholders := join ", " (map (fun _ => "?") values) in
    push_where
      {| w_sql := column ++ " IN (" ++ placeholders ++ ")";
         w_params := values;
         w_connector := connector |}.

(** [whereRaw(sql, params = [], connector = 'AND')] *)
Definition whereRaw (raw : string) (ps : list Primitive) (connector : Connector) : M unit :=
  push_where
    {| w_sql := "(" ++ raw ++ ")"; w_params := ps; w_connector := connector |}.

(** [orderBy(column, dir = 'ASC')] *)
Definition orderBy (column : string) (d : OrderDirection) : M unit :=
  b <- read_this ;;
  assign (set_order (_order b ++ [{| col := column; dir := d |}])).

(** [limit(n)]: [Math.max(0, n | 0)] *)
Definition limit (n : number) : M unit :=
  assign (set_limit (Some (of_int (Z.max 0 (bitor n (of_int 0)))))).

(** [offset(n)]: [Math.max(0, n | 0)] *)
Definition offset (n : number) : M unit :=
  assign (set_offset (Some (of_int (Z.max 0 (bitor n (of_int 0)))))).

(** [paginate(page, pageSize)] *)
Definition paginate (page pageSize : number) : M unit :=
  let p := Z.max 1 (bitor page (of_int 0)) in
  let size := Z.max 1 (bitor pageSize (of_int 0)) in
  assign (set_limit (Some (of_int size))) ;;
  assign (set_offset (Some (of_int (round_to_double ((p - 1) * size))))).

(** [debug(enable = true)] *)
Definition debug (enable : bool) : M unit := assign (set_debug enable).

(** [allowUnsafe()] *)
Definition allowUnsafe : M unit := assign (set_allowUnsafe true).

(** ** [build] *)

(** The [for] loop of the WHERE block, from index [i] on: it pushes one
    entry on [parts] and the fragment's parameters on [params]. *)
Fixpoint where_loop (i : nat) (ws : list WhereFragment)
    (parts : list string) (params : list Primitive) : list string * list Primitive :=
  match ws with
  | [] => (parts, params)
  | w :: rest =>
      let part :=
        if (i =? 0)%nat then w_sql w
        else connector_text (w_connector w) ++ " " ++ w_sql w in
      where_loop (S i) rest (parts ++ [part])%list (params ++ w_params w)%list
  end.

(** The WHERE block. *)
Definition where_block (b : BabySQLBuilder) (sql : string) (params : list Primitive)
    : string * list Primitive :=
  if (0 <? length (_wheres b))%nat then
    let '(parts, params) := where_loop 0 (_wheres b) [] params in
    (sql ++ " WHERE " ++ join " " parts, params)
  else (sql, params).

(** The ORDER BY block. *)
Definition order_block (b : BabySQLBuilder) (sql : string) : string :=
  if negb (length (_order b) =? 0)%nat && QueryType_eqb (type b) Select then
    let orderSql :=
      join ", " (map (fun o => col o ++ " " ++ direction_text (dir o)) (_order b)) in
    sql ++ " ORDER BY " ++ orderSql
  else sql.

(** The LIMIT / OFFSET block. *)
Definition limit_offset_block (b : BabySQLBuilder) (sql : string) (params : list Primitive)
    : string * list Primitive :=
  if negb (QueryType_eqb (type b) Count) then
    match _limit b with
    | Some l =>
        let sql := sql ++ " LIMIT ?" in
        let params := (params ++ [PNumber l])%list in
        match _offset b with
        | Some o => (sql ++ " OFFSET ?", (params ++ [PNumber o])%list)
        | None => (sql, params)
        end
    | None =>
        match _offset b with
        | Some o => (sql ++ " OFFSET ?", (params ++ [PNumber o])%list)
        | None => (sql, params)
        end
    end
  else (sql, params).

(** The statement head: the [if / else if] chain on [this.type], which
    either leaves [sql] and [params] set or throws. *)
Definition head_block (b : BabySQLBuilder) (params : list Primitive)
    : Completion (string * list Primitive) :=
  match type b with
  | Select =>
      let cols : string :=
        if (length (_columns b) =? 0)%nat then "*" else join ", " (_columns b) in
      Returned ("SELECT " ++ cols ++ " FROM " ++ table b, params)
  | Count =>
      Returned ("SELECT COUNT(" ++ _countColumn b ++ ") AS " ++ _countAlias b
             ++ " FROM " ++ table b, params)
  | Insert =>
      match _data b with
      | None => Thrown InsertNeedsData
      | Some d =>
          let keys := own_keys d in
          let placeholders := join ", " (map (fun _ => "?") keys) in
          Returned ("INSERT INTO " ++ table b ++ " (" ++ join ", " keys
                 ++ ") VALUES (" ++ placeholders ++ ")",
               (params ++ map (fun k => prop d k) keys)%list)
      end
  | Update =>
      match _data b with
      | None => Thrown UpdateNeedsData
      | Some d =>
          if (length (_wheres b) =? 0)%nat && negb (_allowUnsafe b) then
            Thrown UpdateWithoutWhere
          else
            let keys := own_keys d in
            let sets := join ", " (map (fun k => k ++ " = ?") keys) in
            Returned ("UPDATE " ++ table b ++ " SET " ++ sets,
                 (params ++ map (fun k => prop d k) keys)%list)
      end
  | Delete =>
      if (length (_wheres b) =? 0)%nat && negb (_allowUnsafe b) then
        Thrown DeleteWithoutWhere
      else Returned ("DELETE FROM " ++ table b, params)
  end.

Definition build : M BuiltQuery :=
  b <- read_this ;;
  let params : list Primitive := [] in
  '(sql, params) <- complete (head_block b params) ;;
  let '(sql, params) :=
    if negb (QueryType_eqb (type b) Insert) then
      let '(sql, params) := where_block b sql params in
      let sql := order_block b sql in
      limit_offset_block b sql params
    else (sql, params) in
  (if _debug b then
     console_log (LogString "[BabySQL DEBUG] SQL:" sql) ;;
     console_log (LogParams "[BabySQL DEBUG] PARAMS:" params)
   else ret tt) ;;
  ret {| sql := sql; params := params |}.

(** The factory [BabySQL]. *)
Module BabySQL.
Definition select (table : string) := new_BabySQLBuilder Select table.
Definition count (table : string) := new_BabySQLBuilder Count table.
Definition insert (table : string) := new_BabySQLBuilder Insert table.
Definition update (table : string) := new_BabySQLBuilder Update table.
Definition delete (table : string) := new_BabySQLBuilder Delete table.
End BabySQL.


(** The configuration API as data: one constructor per chainable method. *)
Inductive ConfigCall : Type :=
| CallCountColumn (c alias : option string)
| CallData (obj : JSObject)
| CallColumns (cols : list string + string)
| CallWhere (column : string) (op : WhereOperator) (value : Primitive) (c : Connector)
| CallWhereLike (column value : string) (mode : LikeMode) (c : Connector)
| CallWhereIn (column : string) (values : list Primitive) (c : Connector)
| CallWhereRaw (raw : string) (ps : list Primitive) (c : Connector)
| CallOrderBy (column : string) (d : OrderDirection)
| CallLimit (n : number)
| CallOffset (n : number)
| CallPaginate (page pageSize : number)
| CallDebug (enable : bool)
| CallAllowUnsafe.

Definition invoke (c : ConfigCall) : M unit :=
  match c with
  | CallCountColumn c alias => countColumn c alias
  | CallData obj => data obj
  | CallColumns cols => columns cols
  | CallWhere column op value c => where_ column op value c
  | CallWhereLike column value mode c => whereLike column value mode c
  | CallWhereIn column values c => whereIn column values c
  | CallWhereRaw raw ps c => whereRaw raw ps c
  | CallOrderBy column d => orderBy column d
  | CallLimit n => limit n
  | CallOffset n => offset n
  | CallPaginate page pageSize => paginate page pageSize
  | CallDebug enable => debug enable
  | CallAllowUnsafe => allowUnsafe
  end.

(** ** Vocabulary of the properties *)

(** Number of [?] characters of a string. *)
Fixpoint count_placeholders (s : string) : nat :=
  match s with
  | EmptyString => 0
  | String c s' => (if Ascii.eqb c "?" then 1 else 0) + count_placeholders s'
  end.

Definition placeholder_free (s : string) : bool :=
  (count_placeholders s =? 0)%nat.

(** A fragment is aligned when its SQL has one [?] per parameter. *)
Definition fragment_aligned (w : WhereFragment) : bool :=
  (count_placeholders (w_sql w) =? length (w_params w))%nat.

Definition fragments_aligned (b : BabySQLBuilder) : bool :=
  forallb fragment_aligned (_wheres b).

(** No name handed to the builder (table, columns, count projection,
    payload keys, order columns) contains a [?]. *)
Definition names_placeholder_free (b : BabySQLBuilder) : bool :=
  placeholder_free (table b)
  && forallb placeholder_free (_columns b)
  && placeholder_free (_countColumn b)
  && placeholder_free (_countAlias b)
  && match _data b with
     | Some d => forallb placeholder_free (map fst d)
     | None => true
     end
  && forallb (fun o => placeholder_free (col o)) (_order b).

(** A call keeps the builder aligned when the names it passes are free of
    [?] and, for [whereRaw], the text has one [?] per parameter. *)
Definition call_aligned (c : ConfigCall) : bool :=
  match c with
  | CallCountColumn c alias =>
      placeholder_free (match c with Some c => c | None => "*" end)
      && placeholder_free (match alias with Some a => a | None => "total" end)
  | CallData obj => forallb placeholder_free (map fst obj)
  | CallColumns cols =>
      forallb placeholder_free (match cols with inl l => l | inr c => [c] end)
  | CallWhere column _ _ _ => placeholder_free column
  | CallWhereLike column _ _ _ => placeholder_free column
  | CallWhereIn column _ _ => placeholder_free column
  | CallWhereRaw raw ps _ => (count_placeholders raw =? length ps)%nat
  | CallOrderBy column _ => placeholder_free column
  | CallLimit _ | CallOffset _ | CallPaginate _ _ | CallDebug _ | CallAllowUnsafe => true
  end.

(** A chain of configuration calls on one instance. *)
Fixpoint invoke_all (cs : list ConfigCall) : M unit :=
  match cs with
  | [] => ret tt
  | c :: rest => invoke c ;; invoke_all rest
  end.

(** Concatenation of a list of strings. *)
Fixpoint concat_all (l : list string) : string :=
  match l with
  | [] => ""
  | x :: rest => x ++ concat_all rest
  end.

(** The WHERE clause in the specification's words: nothing for an empty
    predicate list; otherwise [ WHERE ], the first fragment verbatim, then
    each later fragment behind its own connector. *)
Definition spec_where_clause (ws : list WhereFragment) : string :=
  match ws with
  | [] => ""
  | w :: rest =>
      " WHERE " ++ w_sql w
      ++ concat_all
           (map (fun f => " " ++ connector_text (w_connector f) ++ " " ++ w_sql f) rest)
  end.

(** The parameters of the predicate list, fragment after fragment. *)
Definition spec_where_params (ws : list WhereFragment) : list Primitive :=
  flat_map w_params ws.

(** What the ORDER BY and LIMIT / OFFSET blocks add to an empty statement. *)
Definition order_text (b : BabySQLBuilder) : string := order_block b "".
Definition limit_text (b : BabySQLBuilder) : string := fst (limit_offset_block b "" []).
Definition limit_params (b : BabySQLBuilder) : list Primitive :=
  snd (limit_offset_block b "" []).

(** The entry the WHERE loop pushes for a fragment other than the first. *)
Definition later_part (w : WhereFragment) : string :=
  connector_text (w_connector w) ++ " " ++ w_sql w.

(** The pair [build] returns from a head [(hs, hp)]: the head, then the
    three clauses (none of them for insert). *)
Definition assembled (b : BabySQLBuilder) (hs : string) (hp : list Primitive) : BuiltQuery :=
  if negb (QueryType_eqb (type b) Insert) then
    {| sql := hs ++ spec_where_clause (_wheres b) ++ order_text b ++ limit_text b;
       params := (hp ++ spec_where_params (_wheres b) ++ limit_params b)%list |}
  else {| sql := hs; params := hp |}.

(** What a run of [build] that returns [q] writes to the console. *)
Definition debug_lines (b : BabySQLBuilder) (q : BuiltQuery) : list ConsoleLine :=
  if _debug b then
    [LogString "[BabySQL DEBUG] SQL:" (sql q); LogParams "[BabySQL DEBUG] PARAMS:" (params q)]
  else [].

(** The two failure conditions of the specification. *)
Definition missing_payload (b : BabySQLBuilder) : Prop :=
  (type b = Insert \/ type b = Update) /\ _data b = None.

Definition unsafe_statement (b : BabySQLBuilder) : Prop :=
  (type b = Update \/ type b = Delete) /\ _wheres b = [] /\ _allowUnsafe b = false.

(** [needle] occurs in [s]. *)
Fixpoint occurs (needle s : string) : bool :=
  String.prefix needle s
  || match s with
     | EmptyString => false
     | String _ s' => occurs needle s'
     end.

(** Order of the array-index keys, and the lists [index_keys] produces:
    ascending, each entry pairing a key with its own numeric value. *)
Definition index_le (x y : N * string) : Prop := (fst x <= fst y)%N.

Inductive sorted_index : list (N * string) -> Prop :=
| sorted_nil : sorted_index []
| sorted_one x : sorted_index [x]
| sorted_cons x y l : index_le x y -> sorted_index (y :: l) -> sorted_index (x :: y :: l).

Definition genuine (p : N * string) : Prop := array_index (snd p) = Some (fst p).

(** No key of an object is an array index. *)
Definition no_index_keys (o : JSObject) : bool :=
  forallb (fun k => negb (is_array_index k)) (map fst o).

(** The ORDER BY clause of a select in the specification's words. *)
Definition spec_order_clause (os : list OrderEntry) : string :=
  match os with
  | [] => ""
  | _ :: _ =>
      " ORDER BY " ++ join ", " (map (fun o => col o ++ " " ++ direction_text (dir o)) os)
  end.

(** The LIMIT / OFFSET text and parameters of a statement that takes them. *)
Definition spec_limit_clause (l o : option number) : string :=
  match l, o with
  | Some _, Some _ => " LIMIT ? OFFSET ?"
  | Some _, None => " LIMIT ?"
  | None, Some _ => " OFFSET ?"
  | None, None => ""
  end.

Definition spec_limit_params (l o : option number) : list Primitive :=
  match l, o with
  | Some l, Some o => [PNumber l; PNumber o]
  | Some l, None => [PNumber l]
  | None, Some o => [PNumber o]
  | None, None => []
  end.

(** The calls that push a predicate fragment, and the one that pushes an
    order entry. *)
Definition is_where_call (c : ConfigCall) : bool :=
  match c with
  | CallWhere _ _ _ _ | CallWhereLike _ _ _ _ | CallWhereIn _ _ _ | CallWhereRaw _ _ _ => true
  | _ => false
  end.

Definition is_order_call (c : ConfigCall) : bool :=
  match c with CallOrderBy _ _ => true | _ => false end.

(** A parameter that is a non-negative integer. *)
Definition nonneg_integer (p : Primitive) : Prop :=
  exists z : Z, p = PNumber (of_int z) /\ (0 <= z)%Z.

(** A stored limit or offset that is unset or an integer satisfying [P]. *)
Definition stored_integer (P : Z -> Prop) (v : option number) : Prop :=
  match v with
  | None => True
  | Some n => exists z : Z, n = of_int z /\ P z
  end.

(** The instance a chain of calls leaves, call after call. *)
Definition configured (cs : list ConfigCall) (b : BabySQLBuilder) : BabySQLBuilder :=
  fold_left (fun b c => after (invoke c) b) cs b.

(** ** The README's queries, run *)

Example readme_select :
  result (columns (inl ["id"; "name"]) ;;
          where_ "status" OpEq (PString "active") AND ;;
          orderBy "id" DESC ;;
          limit (of_int 20) ;;
          build) (BabySQL.select "users")
  = Returned {| sql := "SELECT id, name FROM users WHERE status = ? ORDER BY id DESC LIMIT ?";
                params := [PString "active"; PNumber (of_int 20)] |}.
Proof. reflexivity. Qed.

Example readme_insert :
  result (data [("name", PString "bob"); ("age", PNumber (of_int 20))] ;; build)
         (BabySQL.insert "users")
  = Returned {| sql := "INSERT INTO users (name, age) VALUES (?, ?)";
                params := [PString "bob"; PNumber (of_int 20)] |}.
Proof. reflexivity. Qed.

Example readme_count :
  result (countColumn (Some "id") (Some "userCount") ;; build) (BabySQL.count "users")
  = Returned {| sql := "SELECT COUNT(id) AS userCount FROM users"; params := [] |}.
Proof. reflexivity. Qed.

Example readme_update_unsafe :
  result (data [("status", PString "inactive")] ;; build) (BabySQL.update "users")
  = Thrown UpdateWithoutWhere
  /\ result (data [("status", PString "inactive")] ;; allowUnsafe ;; build)
            (BabySQL.update "users")
     = Returned {| sql := "UPDATE users SET status = ?"; params := [PString "inactive"] |}.
Proof. split; reflexivity. Qed.

Example mixed_connectors :
  result (where_ "status" OpEq (PString "active") AND ;;
          where_ "age" OpGt (PNumber (of_int 18)) AND ;;
          where_ "role" OpEq (PString "admin") OR ;;
          whereIn "id" [PNull; PNull] AND ;;
          paginate (of_int 3) (of_int 10) ;;
          build) (BabySQL.delete "users")
  = Returned {| sql := "DELETE FROM users WHERE status = ? AND age > ? OR role = ? AND id IN (?, ?) LIMIT ? OFFSET ?";
                params := [PString "active"; PNumber (of_int 18); PString "admin";
                           PNull; PNull; PNumber (of_int 10); PNumber (of_int 20)] |}.
Proof. reflexivity. Qed.

(** ** Strings *)

Section StringFacts.

Lemma sapp_assoc (a b c : string) : (a ++ b) ++ c = a ++ (b ++ c).
Proof. induction a as [|x a IH]; simpl; [reflexivity | now rewrite IH]. Qed.

Lemma sapp_nil_r (a : string) : a ++ "" = a.
Proof. induction a as [|x a IH]; simpl; [reflexivity | now rewrite IH]. Qed.

Lemma sapp_inv_head (a b c : string) : a ++ b = a ++ c -> b = c.
Proof.
  induction a as [|x a IH]; simpl; intro H; [assumption|].
  injection H as H. now apply IH.
Qed.

Lemma slength_app (a b : string) :
  String.length (a ++ b) = (String.length a + String.length b)%nat.
Proof. induction a as [|x a IH]; simpl; [reflexivity | now rewrite IH]. Qed.

Lemma count_app (a b : string) :
  count_placeholders (a ++ b) = (count_placeholders a + count_placeholders b)%nat.
Proof.
  induction a as [|x a IH]; simpl; [reflexivity|].
  rewrite IH. lia.
Qed.

Lemma count_concat_all (l : list string) :
  count_placeholders (concat_all l) = list_sum (map count_placeholders l).
Proof.
  induction l as [|x l IH]; simpl; [reflexivity|].
  now rewrite count_app, IH.
Qed.

Lemma join_cons (sep x : string) (l : list string) :
  join sep (x :: l) = x ++ concat_all (map (fun y => sep ++ y) l).
Proof.
  revert x. induction l as [|y l IH]; intro x.
  - simpl. now rewrite sapp_nil_r.
  - change (join sep (x :: y :: l)) with (x ++ sep ++ join sep (y :: l)).
    rewrite IH. simpl. now rewrite sapp_assoc.
Qed.

(** A separator without [?] adds nothing to the count of a joined list. *)
Lemma count_join (sep : string) (l : list string) :
  count_placeholders sep = 0%nat ->
  count_placeholders (join sep l) = list_sum (map count_placeholders l).
Proof.
  intro Hsep. destruct l as [|x l]; [reflexivity|].
  rewrite join_cons, count_app, count_concat_all, map_map. simpl. f_equal.
  induction l as [|y l IH]; simpl; [reflexivity|].
  rewrite count_app, Hsep, IH. reflexivity.
Qed.

Lemma list_sum_const {A} (f : A -> nat) (c : nat) (l : list A) :
  (forall x, In x l -> f x = c) -> list_sum (map f l) = (c * length l)%nat.
Proof.
  induction l as [|x l IH]; simpl; intro H; [lia|].
  rewrite (H x (or_introl eq_refl)), IH by (intros; apply H; now right). lia.
Qed.

End StringFacts.

(** ** The blocks of [build] in closed form *)

Section Blocks.

Variable b : BabySQLBuilder.

Lemma where_loop_later (i : nat) (ws : list WhereFragment)
    (parts : list string) (ps : list Primitive) :
  where_loop (S i) ws parts ps
  = ((parts ++ map later_part ws)%list, (ps ++ flat_map w_params ws)%list).
Proof.
  revert i parts ps. induction ws as [|w ws IH]; intros i parts ps; simpl.
  - now rewrite !app_nil_r.
  - rewrite IH, <- !app_assoc. reflexivity.
Qed.

Lemma where_block_closed (s : string) (ps : list Primitive) :
  where_block b s ps
  = (s ++ spec_where_clause (_wheres b), (ps ++ spec_where_params (_wheres b))%list).
Proof.
  unfold where_block, spec_where_params.
  destruct (_wheres b) as [|w ws]; simpl.
  - now rewrite sapp_nil_r, app_nil_r.
  - rewrite where_loop_later. simpl app.
    rewrite join_cons, map_map, <- app_assoc. unfold later_part. reflexivity.
Qed.

Lemma order_block_closed (s : string) : order_block b s = s ++ order_text b.
Proof.
  unfold order_text, order_block.
  destruct (negb (length (_order b) =? 0)%nat && QueryType_eqb (type b) Select).
  - reflexivity.
  - now rewrite sapp_nil_r.
Qed.

Lemma limit_offset_block_closed (s : string) (ps : list Primitive) :
  limit_offset_block b s ps = (s ++ limit_text b, (ps ++ limit_params b)%list).
Proof.
  unfold limit_text, limit_params, limit_offset_block.
  destruct (negb (QueryType_eqb (type b) Count)), (_limit b), (_offset b); simpl;
    rewrite ?sapp_nil_r, ?app_nil_r, ?sapp_assoc, <- ?app_assoc; reflexivity.
Qed.

(** One run of [build], whatever the console held before. *)
Lemma build_closed (out : list ConsoleLine) :
  build (mkWorld b out)
  = match head_block b [] with
    | Returned (hs, hp) =>
        (Returned (assembled b hs hp),
         mkWorld b (out ++ debug_lines b (assembled b hs hp)))
    | Thrown e => (Thrown e, mkWorld b out)
    end.
Proof.
  unfold build, bind, read_this, complete, assembled, debug_lines. simpl.
  destruct (head_block b []) as [[hs hp]|e]; [|reflexivity].
  destruct (negb (QueryType_eqb (type b) Insert)).
  - rewrite where_block_closed, order_block_closed, limit_offset_block_closed.
    rewrite !sapp_assoc, <- !app_assoc.
    destruct (_debug b); simpl; rewrite <- ?app_assoc, ?app_nil_r; reflexivity.
  - destruct (_debug b); simpl; rewrite <- ?app_assoc, ?app_nil_r; reflexivity.
Qed.

Lemma result_build :
  result build b
  = match head_block b [] with
    | Returned (hs, hp) => Returned (assembled b hs hp)
    | Thrown e => Thrown e
    end.
Proof.
  unfold result, run. rewrite build_closed.
  now destruct (head_block b []) as [[hs hp]|e].
Qed.

End Blocks.

(** ** Errors raised by [build] *)

Section Errors.

Variable b : BabySQLBuilder.

Lemma head_block_cases :
  (missing_payload b /\ exists e, head_block b [] = Thrown e /\ kind_of e = MissingPayload)
  \/ (~ missing_payload b /\ unsafe_statement b
      /\ exists e, head_block b [] = Thrown e /\ kind_of e = UnsafeStatement)
  \/ (~ missing_payload b /\ ~ unsafe_statement b
      /\ exists hs hp, head_block b [] = Returned (hs, hp)).
Proof.
  unfold missing_payload, unsafe_statement, head_block.
  destruct (type b) eqn:Ety; destruct (_data b) as [d|] eqn:Ed;
    destruct (_wheres b) as [|w ws] eqn:Ew; destruct (_allowUnsafe b) eqn:Eu; simpl;
    try (left; split; [tauto | eexists; split; reflexivity]);
    try (right; left; split; [ intros [[?|?] ?]; discriminate
                             | split; [tauto | eexists; split; reflexivity]]);
    right; right;
    (split; [intros [[?|?] ?]; discriminate
            | split; [intros [[?|?] [? ?]]; discriminate | eauto]]).
Qed.

End Errors.

Lemma invoke_returns (c : ConfigCall) (w : World) :
  exists w', invoke c w = (Returned tt, w').
Proof.
  destruct c; cbn -[spread round_to_double bitor join];
    try (eexists; reflexivity).
  unfold whereIn. destruct (length values =? 0)%nat; eexists; reflexivity.
Qed.

(** C2: [build] raises exactly when (a) the kind is insert or update and no
    payload was set, the error then being a MissingPayload, or (b) the kind
    is update or delete, the predicate list is empty and the unsafe flag is
    false, the error then being an UnsafeStatement unless (a) already holds;
    in every other configuration [build] returns a pair; and every
    configuration method returns normally from every state. *)
Theorem build_raises_iff (b : BabySQLBuilder) :
  ((exists e, result build b = Thrown e) <-> (missing_payload b \/ unsafe_statement b))
  /\ ((exists q, result build b = Returned q) <-> ~ (missing_payload b \/ unsafe_statement b))
  /\ (forall e, result build b = Thrown e ->
        (kind_of e = MissingPayload <-> missing_payload b)
        /\ (kind_of e = UnsafeStatement <-> ~ missing_payload b /\ unsafe_statement b))
  /\ (forall (c : ConfigCall) (w : World), exists w', invoke c w = (Returned tt, w')).
Proof.
  rewrite result_build.
  split; [|split; [|split; [|apply invoke_returns]]];
    destruct (head_block_cases b)
      as [(Hm & e0 & He & Hk) | [(Hm & Hu & e0 & He & Hk) | (Hm & Hu & hs & hp & He)]];
    rewrite He.
  - split; eauto.
  - split; eauto.
  - split; [intros [e H]; discriminate | intros [H|H]; contradiction].
  - split; [intros [q H]; discriminate | intros H; elim H; now left].
  - split; [intros [q H]; discriminate | intros H; elim H; now right].
  - split; [intros _ [H|H]; contradiction | eauto].
  - intros e H. injection H as <-. rewrite Hk.
    split; split; try tauto; try discriminate.
  - intros e H. injection H as <-. rewrite Hk.
    split; split; try tauto; try discriminate.
  - intros e H. discriminate.
Qed.

(** ** The always-false fragment of [whereIn] *)

Lemma join_placeholders_nonempty {A} (x : A) (l : list A) :
  exists rest, join ", " (map (fun _ => "?") (x :: l)) = String "?" rest.
Proof. simpl map. rewrite join_cons. simpl. eauto. Qed.

(** C7: [whereIn] with an empty value array returns normally and pushes
    exactly the fragment [{ sql: '1=0', params: [], connector }], for every
    column and connector; and for no value array at all is the pushed
    fragment the empty list [<column> IN ()]. *)
Theorem whereIn_empty_values (column : string) (c : Connector) (b : BabySQLBuilder) :
  result (whereIn column [] c) b = Returned tt
  /\ after (whereIn column [] c) b
     = set_wheres (_wheres b ++ [{| w_sql := "1=0"; w_params := []; w_connector := c |}]) b
  /\ forall values : list Primitive,
       exists w,
         _wheres (after (whereIn column values c) b) = (_wheres b ++ [w])%list
         /\ w_connector w = c
         /\ w_sql w <> column ++ " IN ()".
Proof.
  split; [reflexivity | split; [reflexivity|]].
  intros [|v values].
  - eexists. split; [reflexivity | split; [reflexivity|]]. simpl. intro H.
    apply (f_equal String.length) in H. rewrite slength_app in H. simpl in H. lia.
  - eexists. split; [reflexivity | split; [reflexivity|]].
    cbn [w_sql]. intro H. apply sapp_inv_head in H.
    destruct (join_placeholders_nonempty v values) as [rest Hrest].
    rewrite Hrest in H. discriminate.
Qed.

(** ** [build] leaves the instance alone *)

(** C8: [build] does not assign to the instance, and a second call right
    after the first completes the same way: the same [sql] and the same
    [params], or the same error. *)
Theorem build_idempotent (w : World) :
  this (snd (build w)) = this w
  /\ fst (build (snd (build w))) = fst (build w)
  /\ this (snd (build (snd (build w)))) = this w.
Proof.
  destruct w as [b out]. rewrite build_closed.
  destruct (head_block b []) as [[hs hp]|e] eqn:Eh; cbn [fst snd this];
    rewrite build_closed, Eh; auto.
Qed.

(** C9: the pair (or the error) that [build] produces is the same with the
    debug flag set and with it cleared; only the console differs, and the
    flag changes nothing else of the instance. *)
Theorem debug_noninterference (b : BabySQLBuilder) :
  result build (set_debug true b) = result build (set_debug false b)
  /\ result (debug true ;; build) b = result (debug false ;; build) b
  /\ output build (set_debug false b) = []
  /\ after build (set_debug true b) = set_debug true b.
Proof.
  assert (Hres : forall v, result build (set_debug v b) = result build b).
  { intro v. rewrite !result_build.
    change (head_block (set_debug v b) []) with (head_block b []).
    destruct (head_block b []) as [[hs hp]|e]; reflexivity. }
  repeat split.
  - now rewrite !Hres.
  - change (result (debug true ;; build) b) with (result build (set_debug true b)).
    change (result (debug false ;; build) b) with (result build (set_debug false b)).
    now rewrite !Hres.
  - unfold output, run. rewrite build_closed.
    destruct (head_block _ []) as [[hs hp]|e]; reflexivity.
  - unfold after, run. rewrite build_closed.
    destruct (head_block _ []) as [[hs hp]|e]; reflexivity.
Qed.

(** ** The WHERE clause *)

(** C3: on a builder that is not an insert and holds the fragments
    [w :: ws] (an update also holding its payload, without which [build]
    throws), [build] returns the head, then [ WHERE ], the SQL of [w]
    verbatim, each later fragment behind its own connector in insertion
    order, then the ORDER BY and LIMIT / OFFSET text; the parameters are
    the head's, then those of the fragments in fragment order, then the
    limit and offset. *)
Theorem where_clause_rendering (b : BabySQLBuilder) (w : WhereFragment)
    (ws : list WhereFragment) :
  type b <> Insert ->
  _wheres b = w :: ws ->
  (type b = Update -> _data b <> None) ->
  exists hs hp,
    head_block b [] = Returned (hs, hp)
    /\ result build b
       = Returned
           {| sql := hs ++ " WHERE " ++ w_sql w
                     ++ concat_all
                          (map (fun f => " " ++ connector_text (w_connector f)
                                         ++ " " ++ w_sql f) ws)
                     ++ order_text b ++ limit_text b;
              params := (hp ++ flat_map w_params (w :: ws) ++ limit_params b)%list |}.
Proof.
  intros Hty Hw Hd.
  destruct (head_block_cases b)
    as [(Hm & _) | [(_ & Hu & _) | (_ & _ & hs & hp & He)]].
  - exfalso. destruct Hm as [[Hi|Hup] Hnone]; [contradiction | now apply Hd].
  - exfalso. destruct Hu as (_ & Hnil & _). rewrite Hw in Hnil. discriminate.
  - exists hs, hp. split; [assumption|].
    rewrite result_build, He. unfold assembled.
    destruct (type b); try contradiction; rewrite Hw; cbn -[concat_all];
      rewrite ?sapp_assoc; reflexivity.
Qed.

Lemma where_clause_rendering_witness :
  exists hs hp,
    head_block (set_wheres [mkWhere "a = ?" [PNull] OR; mkWhere "b = ?" [PBoolean true] OR]
                  (BabySQL.select "t")) [] = Returned (hs, hp)
    /\ result build
         (set_wheres [mkWhere "a = ?" [PNull] OR; mkWhere "b = ?" [PBoolean true] OR]
            (BabySQL.select "t"))
       = Returned {| sql := hs ++ " WHERE a = ? OR b = ?";
                     params := (hp ++ [PNull; PBoolean true])%list |}.
Proof.
  destruct (where_clause_rendering
              (set_wheres [mkWhere "a = ?" [PNull] OR; mkWhere "b = ?" [PBoolean true] OR]
                 (BabySQL.select "t"))
              (mkWhere "a = ?" [PNull] OR) [mkWhere "b = ?" [PBoolean true] OR])
    as (hs & hp & Hh & Hr).
  - discriminate.
  - reflexivity.
  - discriminate.
  - exists hs, hp. split; [exact Hh | exact Hr].
Defined.

(** ** COUNT statements *)

(** C6, as stated, fails: an order entry on a count builder leaves no
    ORDER BY in the rendered statement. *)
Lemma count_order_by_dropped :
  result (orderBy "id" ASC ;; build) (BabySQL.count "users")
  = Returned {| sql := "SELECT COUNT(*) AS total FROM users"; params := [] |}
  /\ occurs "ORDER BY" "SELECT COUNT(*) AS total FROM users" = false
  /\ _order (after (orderBy "id" ASC) (BabySQL.count "users"))
     = [{| col := "id"; dir := ASC |}].
Proof. repeat split; reflexivity. Qed.

(** C6, amended: a count builder always renders; the statement is the
    COUNT head followed by the WHERE clause and nothing else (the order
    list, the limit and the offset add no text), and the parameters are
    those of the predicate fragments alone. *)
Theorem count_rendering (b : BabySQLBuilder) :
  type b = Count ->
  result build b
  = Returned
      {| sql := "SELECT COUNT(" ++ _countColumn b ++ ") AS " ++ _countAlias b
                ++ " FROM " ++ table b ++ spec_where_clause (_wheres b);
         params := spec_where_params (_wheres b) |}.
Proof.
  intro Hty. rewrite result_build.
  unfold head_block, assembled, order_text, limit_text, limit_params,
    order_block, limit_offset_block.
  rewrite Hty. cbn [QueryType_eqb negb andb fst snd].
  rewrite andb_false_r. cbn -[spec_where_clause].
  rewrite ?sapp_nil_r, ?app_nil_r, ?sapp_assoc. cbn -[spec_where_clause].
  rewrite ?sapp_assoc. reflexivity.
Qed.

Lemma count_rendering_witness :
  result build
    (set_limit (Some (of_int 5))
       (set_order [{| col := "id"; dir := DESC |}]
          (set_wheres [mkWhere "age > ?" [PNumber (of_int 18)] AND]
             (BabySQL.count "users"))))
  = Returned {| sql := "SELECT COUNT(*) AS total FROM users WHERE age > ?";
                params := [PNumber (of_int 18)] |}.
Proof.
  exact (count_rendering
           (set_limit (Some (of_int 5))
              (set_order [{| col := "id"; dir := DESC |}]
                 (set_wheres [mkWhere "age > ?" [PNumber (of_int 18)] AND]
                    (BabySQL.count "users")))) eq_refl).
Defined.

(** ** [limit] and [offset] *)

Lemma ToInt32_in_range (q : Q) :
  (- 2 ^ 31 <= truncate q < 2 ^ 31)%Z -> ToInt32 (Finite q) = truncate q.
Proof.
  intro H. unfold ToInt32. set (t := truncate q) in *.
  destruct (Z_lt_le_dec t 0) as [Hneg|Hpos].
  - assert (E : (t mod 2 ^ 32 = t + 2 ^ 32)%Z).
    { symmetry. apply Z.mod_unique with (q := (-1)%Z); lia. }
    rewrite E. destruct (Z.leb_spec (2 ^ 31) (t + 2 ^ 32)); lia.
  - rewrite Z.mod_small by lia.
    destruct (Z.leb_spec (2 ^ 31) t); lia.
Qed.

Lemma bitor_zero (n : number) : bitor n (of_int 0) = ToInt32 n.
Proof. unfold bitor. change (ToInt32 (of_int 0)) with 0%Z. apply Z.lor_0_r. Qed.

(** C5, as stated, fails: 2^31 is a number, its truncation is itself, and
    [limit] and [offset] store 0 for it. *)
Lemma limit_wraps_at_2_31 :
  _limit (after (limit (of_int 2147483648)) (BabySQL.select "t")) = Some (of_int 0)
  /\ _offset (after (offset (of_int 2147483648)) (BabySQL.select "t")) = Some (of_int 0)
  /\ Z.max 0 (truncate (inject_Z 2147483648)) = 2147483648%Z
  /\ _limit (after (limit (of_int 4294967299)) (BabySQL.select "t")) = Some (of_int 3).
Proof. repeat split; reflexivity. Qed.

(** C5, amended: for a number whose truncation toward zero fits a signed
    32-bit word, [limit] and [offset] store [max(0, trunc n)], whatever
    was stored before; for any number at all they store
    [max(0, ToInt32 n)] and leave every other field alone. *)
Theorem limit_offset_clamp (b : BabySQLBuilder) (previous : number) (q : Q) :
  (- 2 ^ 31 <= truncate q < 2 ^ 31)%Z ->
  _limit (after (limit (Finite q)) b) = Some (of_int (Z.max 0 (truncate q)))
  /\ _offset (after (offset (Finite q)) b) = Some (of_int (Z.max 0 (truncate q)))
  /\ _limit (after (limit previous ;; limit (Finite q)) b)
     = Some (of_int (Z.max 0 (truncate q)))
  /\ _offset (after (offset previous ;; offset (Finite q)) b)
     = Some (of_int (Z.max 0 (truncate q)))
  /\ (forall n, after (limit n) b = set_limit (Some (of_int (Z.max 0 (ToInt32 n)))) b)
  /\ (forall n, after (offset n) b = set_offset (Some (of_int (Z.max 0 (ToInt32 n)))) b).
Proof.
  intro H.
  assert (E : bitor (Finite q) (of_int 0) = truncate q)
    by (rewrite bitor_zero; now apply ToInt32_in_range).
  repeat split;
    try (cbn -[bitor of_int Z.max]; now rewrite E);
    intro n; cbn -[bitor of_int Z.max ToInt32]; now rewrite bitor_zero.
Qed.

Lemma limit_offset_clamp_witness :
  _limit (after (limit (Finite (-37 # 10))) (BabySQL.select "t")) = Some (of_int 0)
  /\ _offset (after (offset (Finite (207 # 10))) (BabySQL.select "t")) = Some (of_int 20)
  /\ _limit (after (limit (of_int 7) ;; limit (Finite (99 # 2))) (BabySQL.select "t"))
     = Some (of_int 49).
Proof.
  split; [|split].
  - apply (limit_offset_clamp (BabySQL.select "t") NaN (-37 # 10)). vm_compute.
    split; [intro H | reflexivity]; discriminate H.
  - apply (limit_offset_clamp (BabySQL.select "t") NaN (207 # 10)). vm_compute.
    split; [intro H | reflexivity]; discriminate H.
  - apply (limit_offset_clamp (BabySQL.select "t") (of_int 7) (99 # 2)). vm_compute.
    split; [intro H | reflexivity]; discriminate H.
Defined.

(** ** Own keys of an object *)

Section OwnKeys.

Lemma insert_index_sorted (x : N * string) (l : list (N * string)) :
  sorted_index l -> sorted_index (insert_index x l).
Proof.
  induction 1 as [|y|y z l Hyz Hs IH]; simpl.
  - constructor.
  - destruct (N.leb_spec (fst x) (fst y)); repeat constructor; unfold index_le; lia.
  - destruct (N.leb_spec (fst x) (fst y)) as [Hxy|Hxy].
    + repeat constructor; assumption.
    + simpl in IH. destruct (N.leb_spec (fst x) (fst z)) as [Hxz|Hxz].
      * repeat constructor; try assumption; unfold index_le; lia.
      * constructor; assumption.
Qed.

Lemma insert_index_In (x y : N * string) (l : list (N * string)) :
  In y (insert_index x l) <-> y = x \/ In y l.
Proof.
  induction l as [|z l IH]; simpl.
  - intuition congruence.
  - destruct (fst x <=? fst z)%N; simpl; [intuition congruence|].
    rewrite IH. intuition congruence.
Qed.

Lemma index_keys_sorted (ks : list string) : sorted_index (index_keys ks).
Proof.
  induction ks as [|k ks IH]; simpl; [constructor|].
  destruct (array_index k); [now apply insert_index_sorted | assumption].
Qed.

Lemma index_keys_In (ks : list string) (p : N * string) :
  In p (index_keys ks) <-> In (snd p) ks /\ genuine p.
Proof.
  unfold genuine. induction ks as [|k ks IH]; simpl; [tauto|].
  destruct (array_index k) as [n|] eqn:E.
  - rewrite insert_index_In, IH. destruct p as [m s]; simpl. split.
    + intros [H | [H1 H2]]; [injection H as -> -> | ]; auto.
    + intros [[<- | H1] H2]; [left; congruence | auto].
  - rewrite IH. split; [tauto|].
    intros [[<- | H1] H2]; [congruence | auto].
Qed.

(** Sorting an already sorted list of genuine index keys changes nothing. *)
Lemma index_keys_fixed (l : list (N * string)) :
  sorted_index l -> Forall genuine l -> index_keys (map snd l) = l.
Proof.
  induction 1 as [|x|x y l Hxy Hs IH]; intro Hg.
  - reflexivity.
  - inversion Hg as [|? ? Hx _]; subst. simpl. rewrite Hx. now destruct x.
  - inversion Hg as [|? ? Hx Hrest]; subst.
    change (map snd (x :: y :: l)) with (snd x :: map snd (y :: l)).
    cbn [index_keys]. rewrite Hx, (IH Hrest). simpl.
    apply N.leb_le in Hxy. rewrite Hxy. now destruct x.
Qed.

Lemma index_keys_app_plain (l1 l2 : list string) :
  forallb (fun k => negb (is_array_index k)) l2 = true ->
  index_keys (l1 ++ l2) = index_keys l1.
Proof.
  intro H. induction l1 as [|k l1 IH]; simpl.
  - induction l2 as [|k l2 IH]; [reflexivity|]. simpl in *.
    apply andb_prop in H as [Hk H]. unfold is_array_index in Hk.
    destruct (array_index k); [discriminate | auto].
  - now rewrite IH.
Qed.

Lemma filter_plain_of_index (l : list (N * string)) :
  Forall genuine l -> filter (fun k => negb (is_array_index k)) (map snd l) = [].
Proof.
  induction 1 as [|x l Hx _ IH]; simpl; [reflexivity|].
  unfold is_array_index at 1. rewrite Hx. assumption.
Qed.

Lemma forallb_filter_self {A} (f : A -> bool) (l : list A) :
  forallb f (filter f l) = true.
Proof.
  induction l as [|x l IH]; simpl; [reflexivity|].
  destruct (f x) eqn:E; simpl; [now rewrite E|assumption].
Qed.

Lemma filter_fixed {A} (f : A -> bool) (l : list A) :
  forallb f l = true -> filter f l = l.
Proof.
  induction l as [|x l IH]; simpl; [reflexivity|].
  intro H. apply andb_prop in H as [-> H]. now rewrite IH.
Qed.

Variable o : JSObject.

Lemma index_keys_genuine : Forall genuine (index_keys (map fst o)).
Proof. apply Forall_forall. intros p Hp. now apply index_keys_In in Hp. Qed.

Lemma own_keys_subset (k : string) : In k (own_keys o) -> In k (map fst o).
Proof.
  unfold own_keys. rewrite in_app_iff, in_map_iff, filter_In.
  intros [(p & <- & Hp) | [H _]]; [|assumption].
  now apply index_keys_In in Hp.
Qed.

Lemma get_own_key (k : string) : In k (own_keys o) -> exists v, get o k = Some v.
Proof.
  intro H. apply own_keys_subset in H.
  induction o as [|[k' v] o' IH]; simpl in *; [contradiction|].
  destruct (String.eqb_spec k' k); [eauto|].
  destruct H as [H|H]; [contradiction | auto].
Qed.

Lemma spread_keys : map fst (spread o) = own_keys o.
Proof. unfold spread. rewrite map_map. simpl. apply map_id. Qed.

(** [Object.keys({ ...o })] is [Object.keys(o)]. *)
Lemma own_keys_spread : own_keys (spread o) = own_keys o.
Proof.
  unfold own_keys at 1. rewrite spread_keys. unfold own_keys.
  rewrite index_keys_app_plain by apply forallb_filter_self.
  rewrite index_keys_fixed by (apply index_keys_sorted || apply index_keys_genuine).
  rewrite filter_app, filter_plain_of_index by apply index_keys_genuine.
  simpl. rewrite filter_fixed by apply forallb_filter_self. reflexivity.
Qed.

Lemma get_tabulated (f : string -> Primitive) (ks : list string) (k : string) :
  In k ks -> get (map (fun k => (k, f k)) ks) k = Some (f k).
Proof.
  induction ks as [|k' ks IH]; simpl; [contradiction|].
  intro H. destruct (String.eqb_spec k' k) as [->|Hne]; [reflexivity|].
  destruct H as [H|H]; [contradiction | auto].
Qed.

(** The copy holds, under each own key, the value the original holds. *)
Lemma spread_values :
  map (fun k => prop (spread o) k) (own_keys o) = map (fun k => prop o k) (own_keys o).
Proof.
  apply map_ext_in. intros k Hk. unfold prop at 1, spread.
  now rewrite get_tabulated.
Qed.

Lemma own_keys_plain : no_index_keys o = true -> own_keys o = map fst o.
Proof.
  unfold no_index_keys, own_keys. intro H.
  pose proof (index_keys_app_plain [] _ H) as E. simpl in E.
  rewrite E. simpl. now apply filter_fixed.
Qed.

Lemma values_in_creation_order :
  wf_object o -> map (fun k => prop o k) (map fst o) = map snd o.
Proof.
  unfold wf_object. induction o as [|[k v] o' IH]; simpl; [reflexivity|].
  intro H. inversion H as [|? ? Hnotin Hnd]; subst.
  unfold prop at 1. simpl. rewrite String.eqb_refl. f_equal.
  rewrite <- (IH Hnd). apply map_ext_in. intros k' Hk'.
  unfold prop. simpl. destruct (String.eqb_spec k k') as [->|_]; [contradiction | reflexivity].
Qed.

End OwnKeys.

(** ** Payload key order *)

Lemma head_block_insert (b : BabySQLBuilder) (o : JSObject) :
  type b = Insert -> _data b = Some (spread o) ->
  head_block b []
  = Returned ("INSERT INTO " ++ table b ++ " (" ++ join ", " (own_keys o)
                ++ ") VALUES (" ++ join ", " (map (fun _ => "?") (own_keys o)) ++ ")",
              map (fun k => prop o k) (own_keys o)).
Proof.
  intros Hty Hd. unfold head_block. rewrite Hty, Hd.
  now rewrite own_keys_spread, spread_values.
Qed.

Lemma head_block_update (b : BabySQLBuilder) (o : JSObject) :
  type b = Update -> _data b = Some (spread o) ->
  _wheres b <> [] \/ _allowUnsafe b = true ->
  head_block b []
  = Returned ("UPDATE " ++ table b ++ " SET "
                ++ join ", " (map (fun k => k ++ " = ?") (own_keys o)),
              map (fun k => prop o k) (own_keys o)).
Proof.
  intros Hty Hd Hgate. unfold head_block. rewrite Hty, Hd.
  assert (G : (length (_wheres b) =? 0)%nat && negb (_allowUnsafe b) = false).
  { destruct Hgate as [Hw | ->]; [|apply andb_false_r].
    destruct (_wheres b); [contradiction | reflexivity]. }
  rewrite G. now rewrite own_keys_spread, spread_values.
Qed.

(** C4, as stated, fails: the payload [{ b: 'x', 1: 'y' }] has insertion
    order [b, 1], and insert and update list the column [1] first. *)
Lemma index_key_jumps_ahead :
  wf_object [("b", PString "x"); ("1", PString "y")]
  /\ map fst [("b", PString "x"); ("1", PString "y")] = ["b"; "1"]
  /\ result (data [("b", PString "x"); ("1", PString "y")] ;; build) (BabySQL.insert "t")
     = Returned {| sql := "INSERT INTO t (1, b) VALUES (?, ?)";
                   params := [PString "y"; PString "x"] |}
  /\ result (data [("b", PString "x"); ("1", PString "y")] ;; allowUnsafe ;; build)
            (BabySQL.update "t")
     = Returned {| sql := "UPDATE t SET 1 = ?, b = ?";
                   params := [PString "y"; PString "x"] |}.
Proof.
  split; [|repeat split; reflexivity].
  unfold wf_object. simpl. repeat constructor; simpl; intuition discriminate.
Qed.

(** C4, amended: for a builder whose payload was set from [o], the columns
    of INSERT and the assignments of SET follow [Object.keys] order of the
    payload (array-index keys in ascending numeric order, then the other
    keys in insertion order), which is also the creation order of the copy
    [data] stored, and the leading parameters are the values under those
    keys in the same order; for a payload none of whose keys is an array
    index, that order is the insertion order. *)
Theorem payload_key_order (b : BabySQLBuilder) (o : JSObject) :
  _data b = Some (spread o) ->
  (type b = Insert ->
   result build b
   = Returned
       {| sql := "INSERT INTO " ++ table b ++ " (" ++ join ", " (own_keys o)
                 ++ ") VALUES (" ++ join ", " (map (fun _ => "?") (own_keys o)) ++ ")";
          params := map (fun k => prop o k) (own_keys o) |})
  /\ (type b = Update -> _wheres b <> [] \/ _allowUnsafe b = true ->
      result build b
      = Returned
          {| sql := "UPDATE " ++ table b ++ " SET "
                    ++ join ", " (map (fun k => k ++ " = ?") (own_keys o))
                    ++ spec_where_clause (_wheres b) ++ limit_text b;
             params := (map (fun k => prop o k) (own_keys o)
                        ++ spec_where_params (_wheres b) ++ limit_params b)%list |})
  /\ own_keys o = map fst (spread o)
  /\ (wf_object o -> no_index_keys o = true ->
      own_keys o = map fst o /\ map (fun k => prop o k) (own_keys o) = map snd o).
Proof.
  intro Hd. split; [|split; [|split; [symmetry; apply spread_keys|]]].
  - intro Hty. rewrite result_build, (head_block_insert b o Hty Hd).
    unfold assembled. now rewrite Hty.
  - intros Hty Hgate. rewrite result_build, (head_block_update b o Hty Hd Hgate).
    unfold assembled, order_text, order_block. rewrite Hty.
    cbn [QueryType_eqb negb]. rewrite andb_false_r.
    rewrite !sapp_assoc. reflexivity.
  - intros Hwf Hplain. rewrite (own_keys_plain o Hplain).
    split; [reflexivity | now apply values_in_creation_order].
Qed.

Lemma payload_key_order_witness :
  result (data [("name", PString "bob"); ("age", PNumber (of_int 20))] ;; build)
         (BabySQL.insert "users")
  = Returned {| sql := "INSERT INTO users (name, age) VALUES (?, ?)";
                params := [PString "bob"; PNumber (of_int 20)] |}
  /\ own_keys [("name", PString "bob"); ("age", PNumber (of_int 20))] = ["name"; "age"].
Proof.
  pose (o := [("name", PString "bob"); ("age", PNumber (of_int 20))]).
  destruct (payload_key_order (after (data o) (BabySQL.insert "users")) o eq_refl)
    as (Hins & _ & _ & Hplain).
  split.
  - exact (Hins eq_refl).
  - apply Hplain; [|reflexivity].
    unfold wf_object. simpl. repeat constructor; simpl; intuition discriminate.
Defined.

(** ** The always-false fragment and the safety gate *)

(** C10: a delete, or an update holding its payload, whose only predicate
    is the always-false fragment of [whereIn] renders without
    [allowUnsafe]: [DELETE FROM <table> WHERE 1=0] with no parameter, and
    [UPDATE <table> SET ... WHERE 1=0] with the payload's values alone. *)
Theorem always_false_passes_gate (tbl column : string) (c : Connector) (o : JSObject) :
  result (whereIn column [] c ;; build) (BabySQL.delete tbl)
  = Returned {| sql := "DELETE FROM " ++ tbl ++ " WHERE 1=0"; params := [] |}
  /\ _allowUnsafe (after (whereIn column [] c) (BabySQL.delete tbl)) = false
  /\ result (data o ;; whereIn column [] c ;; build) (BabySQL.update tbl)
     = Returned {| sql := "UPDATE " ++ tbl ++ " SET "
                          ++ join ", " (map (fun k => k ++ " = ?") (own_keys o))
                          ++ " WHERE 1=0";
                   params := map (fun k => prop o k) (own_keys o) |}
  /\ forall b : BabySQLBuilder,
       type b = Delete \/ (type b = Update /\ _data b <> None) ->
       _wheres b = [{| w_sql := "1=0"; w_params := []; w_connector := c |}] ->
       exists hs hp,
         head_block b [] = Returned (hs, hp)
         /\ result build b
            = Returned {| sql := hs ++ " WHERE 1=0" ++ limit_text b;
                          params := (hp ++ limit_params b)%list |}.
Proof.
  split; [|split; [reflexivity | split]].
  - change (result (whereIn column [] c ;; build) (BabySQL.delete tbl))
      with (result build (after (whereIn column [] c) (BabySQL.delete tbl))).
    rewrite result_build. cbn. rewrite ?sapp_assoc, ?sapp_nil_r. reflexivity.
  - change (result (data o ;; whereIn column [] c ;; build) (BabySQL.update tbl))
      with (result build (after (data o ;; whereIn column [] c) (BabySQL.update tbl))).
    rewrite result_build.
    rewrite (head_block_update
               (after (data o ;; whereIn column [] c) (BabySQL.update tbl)) o
               eq_refl eq_refl)
      by (left; discriminate).
    cbn -[join own_keys]. rewrite ?sapp_assoc, ?sapp_nil_r, ?app_nil_r. reflexivity.
  - intros b Hty Hw.
    destruct (head_block_cases b)
      as [(Hm & _) | [(_ & Hu & _) | (_ & _ & hs & hp & He)]].
    + exfalso. destruct Hm as [[Hi|Hup] Hnone], Hty as [Hdel|[_ Hd]];
        congruence.
    + exfalso. destruct Hu as (_ & Hnil & _). congruence.
    + exists hs, hp. split; [assumption|].
      rewrite result_build, He. unfold assembled, order_text, order_block.
      rewrite Hw.
      destruct Hty as [-> | [-> _]]; cbn [QueryType_eqb negb];
        rewrite andb_false_r; cbn [spec_where_clause spec_where_params flat_map map concat_all];
        rewrite ?sapp_assoc, ?sapp_nil_r; reflexivity.
Qed.

Lemma always_false_passes_gate_witness :
  exists hs hp,
    head_block (set_limit (Some (of_int 1))
                  (after (whereIn "id" [] OR) (BabySQL.delete "users"))) []
    = Returned (hs, hp)
    /\ result build (set_limit (Some (of_int 1))
                       (after (whereIn "id" [] OR) (BabySQL.delete "users")))
       = Returned {| sql := hs ++ " WHERE 1=0 LIMIT ?";
                     params := (hp ++ [PNumber (of_int 1)])%list |}.
Proof.
  exact (proj2 (proj2 (proj2 (always_false_passes_gate "users" "id" OR [])))
           (set_limit (Some (of_int 1))
              (after (whereIn "id" [] OR) (BabySQL.delete "users")))
           (or_introl eq_refl) eq_refl).
Defined.

(** ** Placeholder / parameter alignment *)

Section Alignment.

Ltac count_norm :=
  repeat first
    [ rewrite count_app
    | progress cbn [count_placeholders append Ascii.eqb Bool.eqb Nat.add] ].

Lemma list_sum_zero {A} (f : A -> nat) (l : list A) :
  (forall x, In x l -> f x = 0%nat) -> list_sum (map f l) = 0%nat.
Proof. intro H. now rewrite (list_sum_const f 0 l H). Qed.

Lemma placeholder_free_count (s : string) :
  placeholder_free s = true -> count_placeholders s = 0%nat.
Proof. unfold placeholder_free. now intros H%Nat.eqb_eq. Qed.

Lemma count_join_free (l : list string) :
  forallb placeholder_free l = true -> count_placeholders (join ", " l) = 0%nat.
Proof.
  intro H. rewrite count_join by reflexivity. apply list_sum_zero.
  intros x Hx. apply placeholder_free_count.
  rewrite forallb_forall in H. now apply H.
Qed.

Lemma count_join_holes {A} (l : list A) :
  count_placeholders (join ", " (map (fun _ => "?") l)) = length l.
Proof.
  rewrite count_join, map_map by reflexivity.
  rewrite (list_sum_const _ 1) by reflexivity. lia.
Qed.

Lemma count_join_sets (l : list string) :
  forallb placeholder_free l = true ->
  count_placeholders (join ", " (map (fun k => k ++ " = ?") l)) = length l.
Proof.
  intro H. rewrite count_join, map_map by reflexivity.
  rewrite (list_sum_const _ 1); [lia|].
  intros k Hk. rewrite forallb_forall in H.
  rewrite count_app, (placeholder_free_count k (H k Hk)). reflexivity.
Qed.

Lemma own_keys_free (d : JSObject) :
  forallb placeholder_free (map fst d) = true ->
  forallb placeholder_free (own_keys d) = true.
Proof.
  rewrite !forallb_forall. intros H k Hk. apply H. now apply own_keys_subset.
Qed.

Lemma connector_free (c : Connector) : count_placeholders (connector_text c) = 0%nat.
Proof. now destruct c. Qed.

Lemma direction_free (d : OrderDirection) : count_placeholders (direction_text d) = 0%nat.
Proof. now destruct d. Qed.

Lemma where_clause_aligned (ws : list WhereFragment) :
  forallb fragment_aligned ws = true ->
  count_placeholders (spec_where_clause ws) = length (spec_where_params ws).
Proof.
  unfold spec_where_params, fragment_aligned.
  destruct ws as [|w ws]; [reflexivity|]. simpl forallb.
  intros [Hw Hws]%andb_prop. apply Nat.eqb_eq in Hw.
  cbn [spec_where_clause flat_map]. rewrite length_app. count_norm.
  rewrite Hw. f_equal.
  induction ws as [|f ws IH]; [reflexivity|].
  simpl in Hws. apply andb_prop in Hws as [Hf Hws]. apply Nat.eqb_eq in Hf.
  cbn [map concat_all flat_map]. rewrite length_app. count_norm.
  rewrite connector_free, Hf, (IH Hws). reflexivity.
Qed.

Variable b : BabySQLBuilder.
Hypothesis names : names_placeholder_free b = true.

Lemma names_split :
  count_placeholders (table b) = 0%nat
  /\ forallb placeholder_free (_columns b) = true
  /\ count_placeholders (_countColumn b) = 0%nat
  /\ count_placeholders (_countAlias b) = 0%nat
  /\ (forall d, _data b = Some d -> forallb placeholder_free (own_keys d) = true)
  /\ forallb (fun o => placeholder_free (col o)) (_order b) = true.
Proof.
  unfold names_placeholder_free in names.
  repeat (apply andb_prop in names as [names ?]).
  repeat split; auto using placeholder_free_count.
  intros d Hd. rewrite Hd in *. now apply own_keys_free.
Qed.

Lemma head_aligned (hs : string) (hp : list Primitive) :
  head_block b [] = Returned (hs, hp) -> count_placeholders hs = length hp.
Proof.
  destruct names_split as (Ht & Hc & Hcc & Hca & Hd & _).
  unfold head_block.
  destruct (type b).
  - intros [= <- <-]. count_norm. rewrite Ht.
    destruct (length (_columns b) =? 0)%nat; [reflexivity|].
    now rewrite count_join_free.
  - intros [= <- <-]. count_norm. now rewrite Ht, Hcc, Hca.
  - destruct (_data b) as [d|]; [|discriminate].
    intros [= <- <-]. count_norm.
    rewrite Ht, count_join_holes, count_join_free by now apply Hd.
    simpl. now rewrite length_map.
  - destruct (_data b) as [d|]; [|discriminate].
    destruct ((length (_wheres b) =? 0)%nat && negb (_allowUnsafe b)); [discriminate|].
    intros [= <- <-]. count_norm.
    rewrite Ht, count_join_sets by now apply Hd.
    simpl. now rewrite length_map.
  - destruct ((length (_wheres b) =? 0)%nat && negb (_allowUnsafe b)); [discriminate|].
    intros [= <- <-]. count_norm. now rewrite Ht.
Qed.

Lemma order_text_free : count_placeholders (order_text b) = 0%nat.
Proof.
  destruct names_split as (_ & _ & _ & _ & _ & Ho).
  unfold order_text, order_block.
  destruct (negb (length (_order b) =? 0)%nat && QueryType_eqb (type b) Select);
    [|reflexivity].
  count_norm. rewrite count_join, map_map by reflexivity.
  apply list_sum_zero. intros o Hin. count_norm.
  rewrite forallb_forall in Ho.
  now rewrite (placeholder_free_count _ (Ho o Hin)), direction_free.
Qed.

Lemma limit_text_aligned : count_placeholders (limit_text b) = length (limit_params b).
Proof.
  unfold limit_text, limit_params, limit_offset_block.
  now destruct (negb (QueryType_eqb (type b) Count)), (_limit b), (_offset b).
Qed.

End Alignment.

Lemma assembled_aligned (b : BabySQLBuilder) (hs : string) (hp : list Primitive) :
  names_placeholder_free b = true ->
  fragments_aligned b = true ->
  head_block b [] = Returned (hs, hp) ->
  count_placeholders (sql (assembled b hs hp)) = length (params (assembled b hs hp)).
Proof.
  intros Hnames Hfrag Eh.
  pose proof (head_aligned b Hnames hs hp Eh) as Hh.
  pose proof (where_clause_aligned (_wheres b) Hfrag) as Hw.
  pose proof (order_text_free b Hnames) as Ho.
  pose proof (limit_text_aligned b) as Hl.
  unfold assembled. destruct (negb (QueryType_eqb (type b) Insert)); cbn [sql params].
  - rewrite !count_app, !length_app. lia.
  - assumption.
Qed.

(** C1, as stated, fails: a raw predicate may carry parameters its text has
    no placeholder for, and a [?] in a table name is a [?] of the
    statement. *)
Lemma raw_predicate_misaligned :
  result (whereRaw "x = 1" [PNumber (of_int 5)] AND ;; build) (BabySQL.select "t")
  = Returned {| sql := "SELECT * FROM t WHERE (x = 1)"; params := [PNumber (of_int 5)] |}
  /\ count_placeholders "SELECT * FROM t WHERE (x = 1)" = 0%nat
  /\ length [PNumber (of_int 5)] = 1%nat
  /\ result build (BabySQL.select "t?")
     = Returned {| sql := "SELECT * FROM t?"; params := [] |}
  /\ count_placeholders "SELECT * FROM t?" = 1%nat.
Proof. repeat split; reflexivity. Qed.

(** C1, amended: when no name given to the builder contains [?] and every
    predicate fragment has as many [?] as parameters, a pair returned by
    [build] has as many [?] in [sql] as entries in [params]; and the
    alignment holds clause by clause, in the order of assembly: the head
    with the head's parameters, the WHERE clause with the fragments'
    parameters, no [?] in ORDER BY, LIMIT / OFFSET with their parameters. *)
Theorem placeholder_alignment (b : BabySQLBuilder) (q : BuiltQuery) :
  names_placeholder_free b = true ->
  fragments_aligned b = true ->
  result build b = Returned q ->
  count_placeholders (sql q) = length (params q)
  /\ exists hs hp,
       head_block b [] = Returned (hs, hp)
       /\ q = assembled b hs hp
       /\ count_placeholders hs = length hp
       /\ count_placeholders (spec_where_clause (_wheres b))
          = length (spec_where_params (_wheres b))
       /\ count_placeholders (order_text b) = 0%nat
       /\ count_placeholders (limit_text b) = length (limit_params b).
Proof.
  intros Hnames Hfrag Hres. rewrite result_build in Hres.
  destruct (head_block b []) as [[hs hp]|e] eqn:Eh; [|discriminate].
  injection Hres as <-.
  split; [now apply assembled_aligned|].
  exists hs, hp.
  split; [reflexivity | split; [reflexivity | split; [|split; [|split]]]].
  - now apply (head_aligned b).
  - now apply where_clause_aligned.
  - now apply order_text_free.
  - apply limit_text_aligned.
Qed.

Lemma placeholder_alignment_witness :
  count_placeholders
    "SELECT id FROM users WHERE name LIKE ? OR id IN (?, ?) AND (a = ? OR b = ?) ORDER BY id DESC LIMIT ? OFFSET ?"
  = 7%nat.
Proof.
  pose (b := after (columns (inr "id") ;;
                    whereLike "name" "al" both AND ;;
                    whereIn "id" [PNull; PBoolean true] OR ;;
                    whereRaw "a = ? OR b = ?" [PNull; PNull] AND ;;
                    orderBy "id" DESC ;;
                    paginate (of_int 2) (of_int 10))
                   (BabySQL.select "users")).
  exact (proj1 (placeholder_alignment b
                  {| sql := "SELECT id FROM users WHERE name LIKE ? OR id IN (?, ?) AND (a = ? OR b = ?) ORDER BY id DESC LIMIT ? OFFSET ?";
                     params := [PString "%al%"; PNull; PBoolean true; PNull; PNull;
                                PNumber (of_int 10); PNumber (of_int 10)] |}
                  eq_refl eq_refl eq_refl)).
Defined.

(** ** Alignment of the configurations the API produces *)

Lemma operator_free (op : WhereOperator) : count_placeholders (operator_text op) = 0%nat.
Proof. now destruct op. Qed.

Lemma invoke_state (c : ConfigCall) (w : World) :
  invoke c w = (Returned tt, mkWorld (after (invoke c) (this w)) (console w)).
Proof.
  destruct w as [b out]. destruct c; try reflexivity.
  unfold invoke, whereIn, after, run. simpl.
  destruct (length values =? 0)%nat; reflexivity.
Qed.

(** The fragments pushed by [where], [whereLike] and [whereIn] for a column
    without [?] are aligned; the one pushed by [whereRaw] is aligned exactly
    when the caller's text and parameters are. *)
Lemma invoke_keeps_fragments (c : ConfigCall) (b : BabySQLBuilder) :
  call_aligned c = true -> fragments_aligned b = true ->
  fragments_aligned (after (invoke c) b) = true.
Proof.
  unfold fragments_aligned.
  assert (Hpush : forall w, fragment_aligned w = true ->
            forallb fragment_aligned (_wheres b) = true ->
            forallb fragment_aligned (_wheres b ++ [w]) = true).
  { intros w Hw Hb. rewrite forallb_app, Hb. simpl. now rewrite Hw. }
  destruct c; intros Hc Hb; try exact Hb; simpl in Hc.
  - apply Hpush; [|assumption]. unfold fragment_aligned. cbn [w_sql w_params length].
    rewrite !count_app, operator_free, (placeholder_free_count _ Hc). reflexivity.
  - apply Hpush; [|assumption]. unfold fragment_aligned. cbn [w_sql w_params length].
    rewrite !count_app, (placeholder_free_count _ Hc). reflexivity.
  - unfold invoke, whereIn, after, run. destruct values as [|v values].
    + apply Hpush; [reflexivity | assumption].
    + apply Hpush; [|assumption]. unfold fragment_aligned. cbn [w_sql w_params].
      rewrite !count_app, count_join_holes, (placeholder_free_count _ Hc).
      cbn. rewrite Nat.add_0_r. apply Nat.eqb_refl.
  - apply Hpush; [|assumption]. unfold fragment_aligned. cbn [w_sql w_params].
    rewrite !count_app. apply Nat.eqb_eq in Hc. rewrite Hc. cbn.
    rewrite Nat.add_0_r. apply Nat.eqb_refl.
Qed.

Lemma invoke_keeps_names (c : ConfigCall) (b : BabySQLBuilder) :
  call_aligned c = true -> names_placeholder_free b = true ->
  names_placeholder_free (after (invoke c) b) = true.
Proof.
  unfold names_placeholder_free.
  destruct c; intros Hc Hb; try exact Hb; simpl in Hc;
    repeat (apply andb_prop in Hb as [Hb ?]).
  - apply andb_prop in Hc as [Hc1 Hc2]. cbn -[placeholder_free].
    repeat (apply andb_true_intro; split); auto.
  - cbn -[spread placeholder_free]. rewrite spread_keys, (own_keys_free _ Hc).
    repeat (apply andb_true_intro; split); auto.
  - cbn -[placeholder_free]. repeat (apply andb_true_intro; split); auto.
  - unfold invoke, whereIn, after, run.
    destruct (length values =? 0)%nat; cbn -[placeholder_free];
      repeat (apply andb_true_intro; split); auto.
  - cbn -[placeholder_free]. rewrite forallb_app. cbn -[placeholder_free]. rewrite Hc.
    repeat (apply andb_true_intro; split); auto.
Qed.

Lemma invoke_all_aligned (cs : list ConfigCall) (b : BabySQLBuilder) :
  forallb call_aligned cs = true ->
  names_placeholder_free b = true -> fragments_aligned b = true ->
  result (invoke_all cs) b = Returned tt
  /\ names_placeholder_free (after (invoke_all cs) b) = true
  /\ fragments_aligned (after (invoke_all cs) b) = true.
Proof.
  unfold result, after, run. generalize (@nil ConsoleLine) as out.
  revert b. induction cs as [|c cs IH]; intros b out Hcs Hn Hf.
  - auto.
  - simpl in Hcs. apply andb_prop in Hcs as [Hc Hcs].
    cbn [invoke_all]. unfold bind. rewrite invoke_state. cbn [this console].
    apply IH; auto using invoke_keeps_names, invoke_keeps_fragments.
Qed.

(** X14: a builder fresh from the factory, for a table name without [?],
    and configured only by calls whose names are free of [?] and whose raw
    predicates carry one parameter per [?], renders a pair with as many [?]
    in [sql] as entries in [params]. *)
Lemma chain_alignment (ty : QueryType) (tbl : string) (cs : list ConfigCall)
    (q : BuiltQuery) :
  placeholder_free tbl = true ->
  forallb call_aligned cs = true ->
  result (invoke_all cs ;; build) (new_BabySQLBuilder ty tbl) = Returned q ->
  count_placeholders (sql q) = length (params q).
Proof.
  intros Htbl Hcs Hres.
  assert (Hn0 : names_placeholder_free (new_BabySQLBuilder ty tbl) = true).
  { unfold names_placeholder_free. cbn -[placeholder_free]. now rewrite Htbl. }
  destruct (invoke_all_aligned cs (new_BabySQLBuilder ty tbl) Hcs Hn0 eq_refl)
    as (Hret & Hn & Hf).
  unfold result, after, run in *. unfold bind in Hres.
  destruct (invoke_all cs _) as [[[]|e] [b out]]; [|discriminate].
  cbn [this snd] in *. rewrite build_closed in Hres.
  destruct (head_block b []) as [[hs hp]|e] eqn:Eh; [|discriminate].
  injection Hres as <-. now apply assembled_aligned.
Qed.

(** ** Chains of configuration calls *)

Lemma invoke_all_run (cs : list ConfigCall) (b : BabySQLBuilder) (out : list ConsoleLine) :
  invoke_all cs (mkWorld b out) = (Returned tt, mkWorld (configured cs b) out).
Proof.
  revert b. induction cs as [|c cs IH]; intro b; [reflexivity|].
  cbn [invoke_all]. unfold bind. rewrite invoke_state. cbn [this console].
  apply IH.
Qed.

Lemma after_invoke_all (cs : list ConfigCall) (b : BabySQLBuilder) :
  after (invoke_all cs) b = configured cs b.
Proof. unfold after, run. now rewrite invoke_all_run. Qed.

Lemma result_chain_build (cs : list ConfigCall) (b : BabySQLBuilder) :
  result (invoke_all cs ;; build) b = result build (configured cs b).
Proof.
  unfold result, run, bind. rewrite invoke_all_run. reflexivity.
Qed.

(** A property of the instance that every call keeps holds after a chain. *)
Lemma configured_ind (P : BabySQLBuilder -> Prop) :
  (forall c b, P b -> P (after (invoke c) b)) ->
  forall cs b, P b -> P (configured cs b).
Proof.
  intros Hstep cs. induction cs as [|c cs IH]; intros b Hb; [exact Hb|].
  apply IH, Hstep, Hb.
Qed.

(** X1: no configuration call assigns the statement kind or the table: after
    any chain of calls the instance has the kind and the table the
    constructor gave it. *)
Theorem kind_and_table_fixed (cs : list ConfigCall) (b : BabySQLBuilder) :
  type (after (invoke_all cs) b) = type b
  /\ table (after (invoke_all cs) b) = table b.
Proof.
  rewrite after_invoke_all.
  apply (configured_ind (fun b' => type b' = type b /\ table b' = table b));
    [|split; reflexivity].
  intros c b' [Hty Htb]. rewrite <- Hty, <- Htb.
  destruct c; try (split; reflexivity).
  unfold invoke, whereIn, after, run.
  destruct (length values =? 0)%nat; split; reflexivity.
Qed.

(** X2: the predicate list and the order list are append-only: after any
    chain of calls the old fragments and order entries are still there, in
    place, followed by exactly one new fragment per [where], [whereLike],
    [whereIn] or [whereRaw] call and one new entry per [orderBy] call. *)
Theorem predicates_append_only (cs : list ConfigCall) (b : BabySQLBuilder) :
  (exists added,
      _wheres (after (invoke_all cs) b) = (_wheres b ++ added)%list
      /\ length added = length (filter is_where_call cs))
  /\ (exists added,
         _order (after (invoke_all cs) b) = (_order b ++ added)%list
         /\ length added = length (filter is_order_call cs)).
Proof.
  rewrite after_invoke_all. revert b.
  induction cs as [|c cs IH]; intro b.
  - split; exists []; now rewrite app_nil_r.
  - cbn [configured fold_left].
    destruct (IH (after (invoke c) b)) as [(wa & Hw & Hwl) (oa & Ho & Hol)].
    unfold configured in *. rewrite Hw, Ho. clear IH Hw Ho.
    destruct c; cbn [is_where_call is_order_call filter];
      try solve [split; [exists wa | exists oa]; (split; [reflexivity | assumption])];
      try solve [split;
                 [ eexists; split;
                   [cbn; rewrite <- app_assoc; reflexivity | cbn; now rewrite Hwl]
                 | exists oa; split; [reflexivity | assumption] ]].
    + destruct values as [|v values];
        (split;
         [ eexists; split;
           [cbn; rewrite <- app_assoc; reflexivity | cbn; now rewrite Hwl]
         | exists oa; split; [reflexivity | assumption] ]).
    + split; [exists wa; split; [reflexivity | assumption]|].
      eexists. split; [cbn; rewrite <- app_assoc; reflexivity | cbn; now rewrite Hol].
Qed.

(** X3: [allowUnsafe] is never undone: whatever calls follow it, the unsafe
    flag stays set, and [build] on that instance can only fail for a missing
    payload, never for a missing WHERE. *)
Theorem allowUnsafe_sticky (cs : list ConfigCall) (b : BabySQLBuilder) :
  _allowUnsafe (after (allowUnsafe ;; invoke_all cs) b) = true
  /\ forall e, result (allowUnsafe ;; invoke_all cs ;; build) b = Thrown e ->
               kind_of e = MissingPayload.
Proof.
  assert (Hflag : _allowUnsafe (configured cs (set_allowUnsafe true b)) = true).
  { apply (configured_ind (fun b' => _allowUnsafe b' = true)); [|reflexivity].
    intros c b' Hb'. destruct c; try exact Hb'; try reflexivity.
    unfold invoke, whereIn, after, run.
    destruct (length values =? 0)%nat; exact Hb'. }
  split.
  - change (after (allowUnsafe ;; invoke_all cs) b)
      with (after (invoke_all cs) (set_allowUnsafe true b)).
    now rewrite after_invoke_all.
  - intro e.
    change (result (allowUnsafe ;; invoke_all cs ;; build) b)
      with (result (invoke_all cs ;; build) (set_allowUnsafe true b)).
    rewrite result_chain_build, result_build.
    set (b' := configured cs (set_allowUnsafe true b)) in *.
    unfold head_block. rewrite Hflag, andb_false_r.
    destruct (type b'), (_data b'); intro H; try discriminate;
      injection H as <-; reflexivity.
Qed.

(** ** Statements in closed form *)

Lemma order_text_select (b : BabySQLBuilder) :
  type b = Select -> order_text b = spec_order_clause (_order b).
Proof.
  intro Hty. unfold order_text, order_block. rewrite Hty.
  now destruct (_order b).
Qed.

Lemma order_text_other (b : BabySQLBuilder) :
  type b <> Select -> order_text b = "".
Proof.
  intro Hty. unfold order_text, order_block.
  destruct (type b); try contradiction; now rewrite andb_false_r.
Qed.

Lemma limit_clause_closed (b : BabySQLBuilder) :
  type b <> Count ->
  limit_text b = spec_limit_clause (_limit b) (_offset b)
  /\ limit_params b = spec_limit_params (_limit b) (_offset b).
Proof.
  intro Hty. unfold limit_text, limit_params, limit_offset_block.
  destruct (type b); try contradiction; now destruct (_limit b), (_offset b).
Qed.

(** X4: a select never throws; it renders [SELECT <columns or *> FROM
    <table>], then the WHERE clause, then ORDER BY with the order entries in
    insertion order, then LIMIT / OFFSET (a bare OFFSET when only the offset
    is set); its parameters are those of the fragments, then the limit,
    then the offset. *)
Theorem select_rendering (b : BabySQLBuilder) :
  type b = Select ->
  result build b
  = Returned
      {| sql := "SELECT "
                ++ (match _columns b with [] => "*" | _ :: _ => join ", " (_columns b) end)
                ++ " FROM " ++ table b
                ++ spec_where_clause (_wheres b)
                ++ spec_order_clause (_order b)
                ++ spec_limit_clause (_limit b) (_offset b);
         params := (spec_where_params (_wheres b)
                    ++ spec_limit_params (_limit b) (_offset b))%list |}.
Proof.
  intro Hty. rewrite result_build.
  assert (Hc : type b <> Count) by (rewrite Hty; discriminate).
  destruct (limit_clause_closed b Hc) as [Hl Hp].
  unfold head_block, assembled. rewrite Hty, Hl, Hp, (order_text_select b Hty).
  cbn [QueryType_eqb negb app]. rewrite !sapp_assoc.
  destruct (_columns b); cbn; rewrite ?sapp_assoc; reflexivity.
Qed.

Lemma select_rendering_witness :
  result build
    (set_offset (Some (of_int 40))
       (set_order [{| col := "age"; dir := DESC |}; {| col := "id"; dir := ASC |}]
          (set_columns ["id"] (BabySQL.select "users"))))
  = Returned {| sql := "SELECT id FROM users ORDER BY age DESC, id ASC OFFSET ?";
                params := [PNumber (of_int 40)] |}.
Proof.
  exact (select_rendering
           (set_offset (Some (of_int 40))
              (set_order [{| col := "age"; dir := DESC |}; {| col := "id"; dir := ASC |}]
                 (set_columns ["id"] (BabySQL.select "users")))) eq_refl).
Defined.

(** X5: a delete that has a predicate or the unsafe flag renders [DELETE
    FROM <table>], the WHERE clause and LIMIT / OFFSET; order entries never
    show.  With neither a predicate nor the flag it throws, whatever else is
    configured. *)
Theorem delete_rendering (b : BabySQLBuilder) :
  type b = Delete ->
  (_wheres b <> [] \/ _allowUnsafe b = true ->
   result build b
   = Returned
       {| sql := "DELETE FROM " ++ table b
                 ++ spec_where_clause (_wheres b)
                 ++ spec_limit_clause (_limit b) (_offset b);
          params := (spec_where_params (_wheres b)
                     ++ spec_limit_params (_limit b) (_offset b))%list |})
  /\ (_wheres b = [] -> _allowUnsafe b = false ->
      result build b = Thrown DeleteWithoutWhere).
Proof.
  intro Hty. rewrite result_build.
  assert (Hc : type b <> Count) by (rewrite Hty; discriminate).
  assert (Hs : type b <> Select) by (rewrite Hty; discriminate).
  destruct (limit_clause_closed b Hc) as [Hl Hp].
  unfold head_block, assembled. rewrite Hty, Hl, Hp, (order_text_other b Hs).
  cbn [QueryType_eqb negb app]. split.
  - intro Hgate.
    assert (G : (length (_wheres b) =? 0)%nat && negb (_allowUnsafe b) = false).
    { destruct Hgate as [Hw | ->]; [|apply andb_false_r].
      destruct (_wheres b); [contradiction | reflexivity]. }
    rewrite G. cbn. rewrite ?sapp_assoc. reflexivity.
  - intros -> ->. reflexivity.
Qed.

Lemma delete_rendering_witness :
  result build
    (set_order [{| col := "id"; dir := ASC |}]
       (set_limit (Some (of_int 1))
          (set_wheres [mkWhere "id = ?" [PNumber (of_int 5)] AND] (BabySQL.delete "users"))))
  = Returned {| sql := "DELETE FROM users WHERE id = ? LIMIT ?";
                params := [PNumber (of_int 5); PNumber (of_int 1)] |}
  /\ result build (set_limit (Some (of_int 1)) (BabySQL.delete "users"))
     = Thrown DeleteWithoutWhere.
Proof.
  split.
  - apply (delete_rendering
             (set_order [{| col := "id"; dir := ASC |}]
                (set_limit (Some (of_int 1))
                   (set_wheres [mkWhere "id = ?" [PNumber (of_int 5)] AND]
                      (BabySQL.delete "users")))) eq_refl).
    left. discriminate.
  - apply (delete_rendering (set_limit (Some (of_int 1)) (BabySQL.delete "users")) eq_refl);
      reflexivity.
Defined.

(** X6: configuration that does not belong to the statement kind is ignored
    by [build]: columns and order entries unless the kind is select, the
    count projection unless it is count, the payload unless it is insert or
    update, limit and offset for insert and count, predicates for insert,
    and the unsafe flag unless it is update or delete. *)
Theorem foreign_configuration_ignored (b : BabySQLBuilder) :
  (type b <> Select ->
   forall cols os, result build (set_columns cols (set_order os b)) = result build b)
  /\ (type b <> Count ->
      forall c a, result build (set_countColumn c (set_countAlias a b)) = result build b)
  /\ (type b <> Insert -> type b <> Update ->
      forall d, result build (set_data d b) = result build b)
  /\ (type b = Insert \/ type b = Count ->
      forall l o, result build (set_limit l (set_offset o b)) = result build b)
  /\ (type b = Insert ->
      forall ws, result build (set_wheres ws b) = result build b)
  /\ (type b <> Update -> type b <> Delete ->
      forall u, result build (set_allowUnsafe u b) = result build b).
Proof.
  rewrite result_build.
  repeat split; intros; rewrite result_build;
    unfold head_block, assembled, order_text, order_block, limit_text, limit_params,
      limit_offset_block;
    cbn [type table _columns _data _wheres _order _limit _offset _countColumn
         _countAlias _allowUnsafe _debug
         set_columns set_order set_countColumn set_countAlias set_data set_limit
         set_offset set_wheres set_allowUnsafe];
    repeat match goal with
           | H : _ \/ _ |- _ => destruct H
           end;
    destruct (type b); try contradiction; try discriminate;
    rewrite ?andb_false_r; reflexivity.
Qed.

(** ** The console *)

(** X7: [build] appends to the console and never rewrites it; a run that
    throws logs nothing, a run that returns [q] logs nothing without the
    debug flag and, with it, exactly two lines carrying the returned [sql]
    and the returned [params]. *)
Theorem debug_output (b : BabySQLBuilder) (out : list ConsoleLine) :
  match fst (build (mkWorld b out)) with
  | Thrown _ => console (snd (build (mkWorld b out))) = out
  | Returned q =>
      console (snd (build (mkWorld b out)))
      = (out ++ (if _debug b
                 then [LogString "[BabySQL DEBUG] SQL:" (sql q);
                       LogParams "[BabySQL DEBUG] PARAMS:" (params q)]
                 else []))%list
  end.
Proof.
  rewrite build_closed.
  destruct (head_block b []) as [[hs hp]|e]; reflexivity.
Qed.

(** ** Bounds of limit and offset *)

Lemma ToInt32_range (n : number) : (- 2 ^ 31 <= ToInt32 n < 2 ^ 31)%Z.
Proof.
  destruct n as [| neg | q]; cbn [ToInt32]; try lia.
  pose proof (Z.mod_pos_bound (truncate q) (2 ^ 32) ltac:(lia)) as Hm.
  destruct (Z.leb_spec (2 ^ 31) (truncate q mod 2 ^ 32)); lia.
Qed.

Lemma truncate_integer (z : Z) : truncate (inject_Z z) = z.
Proof. unfold truncate, inject_Z. cbn [Qnum Qden]. apply Z.quot_1_r. Qed.

Lemma ToInt32_of_int (z : Z) :
  (- 2 ^ 31 <= z < 2 ^ 31)%Z -> ToInt32 (of_int z) = z.
Proof.
  intro H. unfold of_int. rewrite ToInt32_in_range; rewrite truncate_integer; auto.
Qed.

Lemma round_to_double_nonneg (z : Z) : (0 <= z)%Z -> (0 <= round_to_double z)%Z.
Proof.
  intro H. unfold round_to_double.
  destruct (Z.leb_spec (Z.log2 z - 52) 0); [assumption|].
  apply Z.shiftl_nonneg.
  assert (0 <= Z.shiftr z (Z.log2 z - 52))%Z by now apply Z.shiftr_nonneg.
  destruct (_ || _); lia.
Qed.

Lemma round_to_double_exact (z : Z) :
  (0 <= z < 2 ^ 53)%Z -> round_to_double z = z.
Proof.
  intros [H0 H1]. unfold round_to_double.
  destruct (Z.leb_spec (Z.log2 z - 52) 0) as [_|Hk]; [reflexivity|].
  exfalso. destruct (Z.eq_dec z 0) as [->|Hz]; [cbn in Hk; lia|].
  assert (Z.log2 z < 53)%Z by (apply Z.log2_lt_pow2; lia). lia.
Qed.


(** X9: on a builder made by the factory, whatever chain of calls
    configured it, the stored limit is unset or an integer between 0 and
    2^31 - 1, the stored offset is unset or a non-negative integer, and the
    LIMIT / OFFSET parameters [build] appends are non-negative integers. *)
Theorem pagination_values_integral (ty : QueryType) (tbl : string) (cs : list ConfigCall) :
  stored_integer (fun z => 0 <= z <= 2 ^ 31 - 1)%Z
    (_limit (after (invoke_all cs) (new_BabySQLBuilder ty tbl)))
  /\ stored_integer (fun z => 0 <= z)%Z
       (_offset (after (invoke_all cs) (new_BabySQLBuilder ty tbl)))
  /\ Forall nonneg_integer (limit_params (after (invoke_all cs) (new_BabySQLBuilder ty tbl))).
Proof.
  rewrite after_invoke_all.
  assert (Inv : stored_integer (fun z => 0 <= z <= 2 ^ 31 - 1)%Z
                  (_limit (configured cs (new_BabySQLBuilder ty tbl)))
                /\ stored_integer (fun z => 0 <= z)%Z
                     (_offset (configured cs (new_BabySQLBuilder ty tbl)))).
  { apply (configured_ind
             (fun b => stored_integer (fun z => 0 <= z <= 2 ^ 31 - 1)%Z (_limit b)
                       /\ stored_integer (fun z => 0 <= z)%Z (_offset b)));
      [|split; exact I].
    intros c b [Hl Ho].
    destruct c; try (split; assumption).
    - unfold invoke, whereIn, after, run.
      destruct (length values =? 0)%nat; split; assumption.
    - split; [|exact Ho]. pose proof (ToInt32_range n).
      exists (Z.max 0 (ToInt32 n)). rewrite <- bitor_zero at 1. split; [reflexivity | lia].
    - split; [exact Hl|]. pose proof (ToInt32_range n).
      exists (Z.max 0 (ToInt32 n)). rewrite <- bitor_zero at 1. split; [reflexivity | lia].
    - pose proof (ToInt32_range page). pose proof (ToInt32_range pageSize). split.
      + exists (Z.max 1 (ToInt32 pageSize)). rewrite <- bitor_zero at 1.
        split; [reflexivity | lia].
      + eexists. split; [reflexivity|].
        apply round_to_double_nonneg. rewrite !bitor_zero. nia. }
  destruct Inv as [Hl Ho]. repeat split; try assumption.
  set (b := configured cs (new_BabySQLBuilder ty tbl)) in *.
  unfold limit_params, limit_offset_block.
  destruct (negb (QueryType_eqb (type b) Count)); [|constructor].
  destruct (_limit b) as [l|], (_offset b) as [o|]; cbn;
    repeat constructor;
    try (destruct Hl as (z & -> & Hz); exists z; split; [reflexivity | lia]);
    try (destruct Ho as (z & -> & Hz); exists z; split; [reflexivity | lia]).
Qed.

(** X10: for page and size numbers whose truncations fit a signed 32-bit
    word and whose offset stays below 2^53, [paginate] stores
    [max(1, size)] as limit and [(max(1, page) - 1) * max(1, size)] as
    offset, exactly; a page below 1 therefore gets offset 0; and when that
    offset fits a signed 32-bit word, [paginate] leaves the instance
    [limit] followed by [offset] would. *)
Theorem paginate_exact (page size : Q) (b : BabySQLBuilder) :
  (- 2 ^ 31 <= truncate page < 2 ^ 31)%Z ->
  (- 2 ^ 31 <= truncate size < 2 ^ 31)%Z ->
  ((Z.max 1 (truncate page) - 1) * Z.max 1 (truncate size) < 2 ^ 53)%Z ->
  _limit (after (paginate (Finite page) (Finite size)) b)
  = Some (of_int (Z.max 1 (truncate size)))
  /\ _offset (after (paginate (Finite page) (Finite size)) b)
     = Some (of_int ((Z.max 1 (truncate page) - 1) * Z.max 1 (truncate size)))
  /\ ((truncate page <= 1)%Z ->
      _offset (after (paginate (Finite page) (Finite size)) b) = Some (of_int 0))
  /\ (((Z.max 1 (truncate page) - 1) * Z.max 1 (truncate size) < 2 ^ 31)%Z ->
      after (paginate (Finite page) (Finite size)) b
      = after (limit (of_int (Z.max 1 (truncate size))) ;;
               offset (of_int ((Z.max 1 (truncate page) - 1) * Z.max 1 (truncate size)))) b).
Proof.
  intros Hp Hs Hprod.
  set (p := Z.max 1 (truncate page)) in *. set (sz := Z.max 1 (truncate size)) in *.
  assert (Ep : bitor (Finite page) (of_int 0) = truncate page)
    by (rewrite bitor_zero; now apply ToInt32_in_range).
  assert (Es : bitor (Finite size) (of_int 0) = truncate size)
    by (rewrite bitor_zero; now apply ToInt32_in_range).
  assert (Hnn : (0 <= (p - 1) * sz)%Z) by (subst p sz; nia).
  assert (Eoff : _offset (after (paginate (Finite page) (Finite size)) b)
                 = Some (of_int ((p - 1) * sz))).
  { cbn -[bitor of_int Z.max round_to_double Z.mul Z.sub].
    rewrite Ep, Es. fold p sz. now rewrite round_to_double_exact by lia. }
  split; [|split; [exact Eoff | split]].
  - cbn -[bitor of_int Z.max round_to_double Z.mul Z.sub]. now rewrite Es.
  - intro H1. rewrite Eoff. subst p. rewrite Z.max_l by lia. reflexivity.
  - intro H31.
    cbn -[bitor of_int Z.max round_to_double Z.mul Z.sub].
    rewrite Ep, Es. fold p sz. rewrite round_to_double_exact by lia.
    rewrite !bitor_zero, !ToInt32_of_int by (subst p sz; lia).
    rewrite (Z.max_r 0 sz), (Z.max_r 0 ((p - 1) * sz)) by (subst sz; lia).
    reflexivity.
Qed.

Lemma paginate_exact_witness :
  _limit (after (paginate (of_int 3) (of_int 10)) (BabySQL.select "posts"))
  = Some (of_int 10)
  /\ _offset (after (paginate (of_int 3) (of_int 10)) (BabySQL.select "posts"))
     = Some (of_int 20)
  /\ after (paginate (of_int 3) (of_int 10)) (BabySQL.select "posts")
     = after (limit (of_int 10) ;; offset (of_int 20)) (BabySQL.select "posts").
Proof.
  assert (R : (- 2 ^ 31 <= 3 < 2 ^ 31)%Z) by lia.
  assert (R' : (- 2 ^ 31 <= 10 < 2 ^ 31)%Z) by lia.
  assert (P : ((Z.max 1 3 - 1) * Z.max 1 10 < 2 ^ 53)%Z) by (cbn; lia).
  destruct (paginate_exact (inject_Z 3) (inject_Z 10) (BabySQL.select "posts") R R' P)
    as (Hl & Ho & _ & Heq).
  split; [exact Hl | split; [exact Ho|]].
  apply Heq. cbn. lia.
Defined.

(** ** The copy [data] stores *)

Lemma insert_index_perm (x : N * string) (l : list (N * string)) :
  Permutation.Permutation (insert_index x l) (x :: l).
Proof.
  induction l as [|y l IH]; simpl; [reflexivity|].
  destruct (fst x <=? fst y)%N; [reflexivity|].
  rewrite IH. apply Permutation.perm_swap.
Qed.

Lemma own_keys_perm (o : JSObject) : Permutation.Permutation (own_keys o) (map fst o).
Proof.
  unfold own_keys. induction (map fst o) as [|k ks IH]; [reflexivity|].
  cbn [index_keys filter]. unfold is_array_index at 1.
  destruct (array_index k) as [n|]; cbn [negb].
  - rewrite (Permutation.Permutation_map snd (insert_index_perm (n, k) (index_keys ks))).
    cbn. now apply Permutation.perm_skip.
  - rewrite <- Permutation.Permutation_middle. now apply Permutation.perm_skip.
Qed.

Lemma get_absent (o : JSObject) (k : string) : ~ In k (map fst o) -> get o k = None.
Proof.
  induction o as [|[k' v] o IH]; simpl; [reflexivity|].
  intro H. destruct (String.eqb_spec k' k) as [->|_]; [tauto | apply IH; tauto].
Qed.

(** X11: the shallow copy [data] stores is the caller's mapping: every key
    reads the same value (or is absent) in the copy as in the original, the
    copy has the same keys, as many of them, without repetition if the
    original had none; copying a copy changes nothing, so [build] renders
    the same from [data(obj)] as from [data({ ...obj })]. *)
Theorem data_copy_same_mapping (o : JSObject) :
  (forall k, get (spread o) k = get o k)
  /\ Permutation.Permutation (map fst (spread o)) (map fst o)
  /\ (wf_object o -> wf_object (spread o))
  /\ spread (spread o) = spread o
  /\ (forall b, result (data (spread o) ;; build) b = result (data o ;; build) b).
Proof.
  assert (Hget : forall k, get (spread o) k = get o k).
  { intro k. destruct (in_dec string_dec k (own_keys o)) as [Hin|Hout].
    - unfold spread. rewrite get_tabulated by assumption.
      unfold prop. destruct (get_own_key o k Hin) as [v ->]. reflexivity.
    - rewrite !get_absent; [reflexivity | |].
      + intro H. apply Hout. now apply (Permutation.Permutation_in _
                                         (Permutation.Permutation_sym (own_keys_perm o))).
      + now rewrite spread_keys. }
  assert (Hidem : spread (spread o) = spread o).
  { unfold spread at 1. rewrite own_keys_spread. unfold spread at 2.
    apply map_ext. intro k. unfold prop. now rewrite Hget. }
  split; [exact Hget | split; [|split; [|split; [exact Hidem|]]]].
  - rewrite spread_keys. apply own_keys_perm.
  - unfold wf_object. rewrite spread_keys. intro H.
    apply (Permutation.Permutation_NoDup (Permutation.Permutation_sym (own_keys_perm o)) H).
  - intro b.
    change (result (data (spread o) ;; build) b)
      with (result build (set_data (Some (spread (spread o))) b)).
    now rewrite Hidem.
Qed.

(** ** [whereIn] with values *)

(** X12: [whereIn] with at least one value pushes one fragment whose SQL is
    the column, [ IN (], one [?] per value separated by [, ], and [)]; its
    parameters are the values in the given order; and the [?] count of the
    fragment exceeds that of the column name by the number of values. *)
Theorem whereIn_placeholders (column : string) (v : Primitive) (values : list Primitive)
    (c : Connector) (b : BabySQLBuilder) :
  exists w,
    _wheres (after (whereIn column (v :: values) c) b) = (_wheres b ++ [w])%list
    /\ w_sql w = column ++ " IN (?" ++ concat_all (map (fun _ => ", ?") values) ++ ")"
    /\ w_params w = v :: values
    /\ w_connector w = c
    /\ count_placeholders (w_sql w)
       = (count_placeholders column + length (v :: values))%nat.
Proof.
  eexists. split; [reflexivity|]. cbn [w_sql w_params w_connector].
  split; [|split; [reflexivity | split; [reflexivity|]]].
  - cbn [map]. rewrite join_cons, map_map. cbn. rewrite ?sapp_assoc. reflexivity.
  - rewrite !count_app, count_join_holes. cbn. lia.
Qed.

(** ** Empty configurations *)

(** X13: what [build] does with nothing or with empty input: a fresh select
    renders [SELECT * FROM <table>], as does one given an empty column
    array; a fresh count renders [COUNT( * ) AS total]; a fresh insert or
    update throws for the missing payload and a fresh delete for the
    missing WHERE; an empty payload object is accepted and renders an empty
    column list and an empty SET list. *)
Theorem empty_configurations (tbl : string) :
  result build (BabySQL.select tbl)
  = Returned {| sql := "SELECT * FROM " ++ tbl; params := [] |}
  /\ result (columns (inl []) ;; build) (BabySQL.select tbl)
     = Returned {| sql := "SELECT * FROM " ++ tbl; params := [] |}
  /\ result build (BabySQL.count tbl)
     = Returned {| sql := "SELECT COUNT(*) AS total FROM " ++ tbl; params := [] |}
  /\ result build (BabySQL.insert tbl) = Thrown InsertNeedsData
  /\ result build (BabySQL.update tbl) = Thrown UpdateNeedsData
  /\ result (allowUnsafe ;; build) (BabySQL.update tbl) = Thrown UpdateNeedsData
  /\ result build (BabySQL.delete tbl) = Thrown DeleteWithoutWhere
  /\ result (allowUnsafe ;; build) (BabySQL.delete tbl)
     = Returned {| sql := "DELETE FROM " ++ tbl; params := [] |}
  /\ result (data [] ;; build) (BabySQL.insert tbl)
     = Returned {| sql := "INSERT INTO " ++ tbl ++ " () VALUES ()"; params := [] |}
  /\ result (data [] ;; build) (BabySQL.update tbl) = Thrown UpdateWithoutWhere
  /\ result (data [] ;; allowUnsafe ;; build) (BabySQL.update tbl)
     = Returned {| sql := "UPDATE " ++ tbl ++ " SET "; params := [] |}.
Proof.
  repeat split; unfold result, run; cbn; rewrite ?sapp_nil_r, ?sapp_assoc; reflexivity.
Qed.

Lemma chain_alignment_witness :
  count_placeholders "UPDATE users SET name = ? WHERE id IN (?, ?) AND (a = ?) LIMIT ?"
  = 5%nat.
Proof.
  exact (chain_alignment Update "users"
           [CallData [("name", PString "x")];
            CallWhereIn "id" [PNull; PNull] AND;
            CallWhereRaw "a = ?" [PBoolean true] AND;
            CallLimit (of_int 1)]
           {| sql := "UPDATE users SET name = ? WHERE id IN (?, ?) AND (a = ?) LIMIT ?";
              params := [PString "x"; PNull; PNull; PBoolean true; PNumber (of_int 1)] |}
           eq_refl eq_refl eq_refl).
Defined.
